(** * Jobly: the partial-update SQL helper and the Job model

    A shallow embedding of [helpers/sql.js] and [models/job.js], with the
    properties of the SQL text and of the error behaviour they promise.

    Definitions:
    - [Js]: the JavaScript values that flow through the code.
    - [Sql]: [sqlForPartialUpdate].
    - [Db]: programs that talk to the store through [db.query].
    - [Job]: the five static methods of the [Job] class.
    - [JobVariant]: the second copy of the class found in the sources.
    - [Store]: a model of the [jobs] table answering the statements of [Job].
    - [Company]: the range check of the company list operation.
    - [Decimal], [Sample]: a Number type and the values of the tests, to
      evaluate the definitions.
    - [Terms]: the vocabulary of the statements.

    Properties: [SqlFacts], [FilterFacts], [StoreFacts], [EquityFacts],
    [CompanyFacts], and [Examples] on the values of the tests. *)

From stdpp Require Import gmap strings list fin_maps pretty.

(** ** JavaScript values *)

Module Js.

(** The Number type of the language.  The code never computes with
    numbers (array lengths and indices are [nat] here), so doubles stay
    abstract: a type, and what the code uses of it, which is equality, the
    ToBoolean and ToString conversions, and [parseFloat] on a string. *)
Class NumberType : Type := { number : Type }.

Class JsNumber `{NumberType} : Type := {
  number_eq_dec :: EqDecision number;
  (** ToBoolean: [false] on [+0], [-0] and [NaN] only. *)
  number_truthy : number → bool;
  (** Number::toString *)
  number_to_string : number → string;
  (** [parseFloat] applied to a string *)
  parseFloat_string : string → number;
  (** the double of a natural number (serial keys) *)
  number_of_nat : nat → number;
}.

Section values.
Context `{JsNumber}.

(** Primitive values: the model needs no nested objects. *)
Inductive JsValue : Type :=
  | JUndefined
  | JNull
  | JBool (b : bool)
  | JNum (x : number)
  | JStr (s : string).

#[global] Instance JsValue_eq_dec : EqDecision JsValue.
Proof. solve_decision. Defined.

(** ToBoolean, as used by [if (v)], [!v] and [v || w]. *)
Definition truthy (v : JsValue) : bool :=
  match v with
  | JUndefined | JNull => false
  | JBool b => b
  | JNum x => number_truthy x
  | JStr s => match s with EmptyString => false | String _ _ => true end
  end.

(** ToString, as used by template literals. *)
Definition to_string (v : JsValue) : string :=
  match v with
  | JUndefined => "undefined"
  | JNull => "null"
  | JBool true => "true"
  | JBool false => "false"
  | JNum x => number_to_string x
  | JStr s => s
  end.

(** [v || w] *)
Definition js_or (v w : JsValue) : JsValue := if truthy v then v else w.

(** [parseFloat(v)]: the argument is converted to a string first. *)
Definition parseFloat (v : JsValue) : number := parseFloat_string (to_string v).


(** An object read as a property bag: [o[k]] is [undefined] for a
    property that is not there (own properties only: what an object
    inherits from its prototype is not modelled). *)
Definition prop (o : gmap string JsValue) (k : string) : JsValue :=
  default JUndefined (o !! k).

(** An object whose enumeration order matters is kept as the list of its
    own properties in the order [Object.keys] lists them. *)
Definition Object_keys (o : list (string * JsValue)) : list string := o.*1.
Definition Object_values (o : list (string * JsValue)) : list JsValue := o.*2.

End values.

(** The double quote character and the line feed of the template literals. *)
Definition dq : string := String (Ascii.ascii_of_nat 34) EmptyString.
Definition LF : string := String (Ascii.ascii_of_nat 10) EmptyString.

(** [n] spaces (the indentation inside multi-line template literals) *)
Fixpoint spaces (n : nat) : string :=
  match n with 0 => "" | S n => " " +:+ spaces n end.

(** The thrown errors: the two classes of [expressError] the code uses, the
    [TypeError] of a property read on [undefined], and a failure raised by
    the store itself. *)
Inductive Error : Type :=
  | BadRequestError (message : string)
  | NotFoundError (message : string)
  | TypeError (message : string)
  | StoreError (message : string).

#[global] Instance Error_eq_dec : EqDecision Error.
Proof. solve_decision. Defined.

End Js.

Export Js.

(** ** helpers/sql.js *)

Module Sql.
Section sql.
Context `{JsNumber}.

Record PartialUpdate : Type := { setCols : string; values : list JsValue }.

#[global] Instance PartialUpdate_eq_dec : EqDecision PartialUpdate.
Proof. solve_decision. Defined.

(** The field mapper, [jsToSql[colName] || colName] inside the template
    literal: the name of the column a key is written to. *)
Definition field_mapper (jsToSql : gmap string JsValue) (colName : string) : string :=
  to_string (js_or (prop jsToSql colName) (JStr colName)).

(** The arrow function mapped over the keys:
    [`"${jsToSql[colName] || colName}"=$${idx + 1}`]. *)
Definition column (jsToSql : gmap string JsValue) (idx : nat) (colName : string) : string :=
  dq +:+ field_mapper jsToSql colName +:+ dq +:+ "=$" +:+ pretty (idx + 1).

Definition sqlForPartialUpdate (dataToUpdate : list (string * JsValue))
    (jsToSql : gmap string JsValue) : Error + PartialUpdate :=
  let keys := Object_keys dataToUpdate in
  if decide (length keys = 0) then inl (BadRequestError "No data") else
  let cols := imap (column jsToSql) keys in
  inr {| setCols := String.concat ", " cols;
         values := Object_values dataToUpdate |}.

End sql.
End Sql.

(** ** Programs over the store

    Every method of [Job] is an [async] function whose only effect is
    [await db.query(text, params)].  A program is the tree of those calls:
    it returns, throws, or sends a statement and goes on with the reply. *)

Module Db.
Section db.
Context `{JsNumber}.

(** The reply of [db.query]: the code reads nothing but [rows]. *)
Record QueryResult : Type := { rows : list (gmap string JsValue) }.

#[global] Instance QueryResult_eq_dec : EqDecision QueryResult.
Proof. solve_decision. Defined.

Inductive Prog (A : Type) : Type :=
  | Ret (a : A)
  | Throw (e : Error)
  | Query (text : string) (params : list JsValue) (k : QueryResult → Prog A).

#[global] Arguments Ret {A} a.
#[global] Arguments Throw {A} e.
#[global] Arguments Query {A} text params k.

Fixpoint bind {A B} (p : Prog A) (f : A → Prog B) : Prog B :=
  match p with
  | Ret a => f a
  | Throw e => Throw e
  | Query text params k => Query text params (λ r, bind (k r) f)
  end.

(** [await db.query(text, params)] *)
Definition db_query (text : string) (params : list JsValue) : Prog QueryResult :=
  Query text params Ret.

(** A store answers a statement with rows or with a failure, and moves to
    a new state. *)
Definition Handler (S : Type) : Type :=
  string → list JsValue → S → (Error + QueryResult) * S.

(** Running a program against a store: the outcome and the final state.
    A failure of the store is thrown to the caller unchanged. *)
Fixpoint run {S A} (h : Handler S) (p : Prog A) (st : S) : (Error + A) * S :=
  match p with
  | Ret a => (inr a, st)
  | Throw e => (inl e, st)
  | Query text params k =>
      match h text params st with
      | (inl e, st') => (inl e, st')
      | (inr r, st') => run h (k r) st'
      end
  end.

(** The statements a run sends to the store, in order. *)
Fixpoint sent {S A} (h : Handler S) (p : Prog A) (st : S) : list (string * list JsValue) :=
  match p with
  | Ret _ | Throw _ => []
  | Query text params k =>
      (text, params) ::
      match h text params st with
      | (inl _, _) => []
      | (inr r, st') => sent h (k r) st'
      end
  end.

(** The replies a run receives from the store, in order. *)
Fixpoint received {S A} (h : Handler S) (p : Prog A) (st : S) : list QueryResult :=
  match p with
  | Ret _ | Throw _ => []
  | Query text params k =>
      match h text params st with
      | (inl _, _) => []
      | (inr r, st') => r :: received h (k r) st'
      end
  end.

End db.

#[global] Instance Prog_bind `{JsNumber} : MBind Prog := λ A B f p, bind p f.
#[global] Instance Prog_ret `{JsNumber} : MRet Prog := λ A a, Ret a.

End Db.

Export Db.

(** ** models/job.js *)

Module Job.

(** The argument of [create]: [title] and [company_handle] are required
    text, [salary] and [equity] may be missing or [null]. *)
Record NewJob `{NumberType} : Type :=
  { title : string; salary : JsValue; equity : JsValue; company_handle : string }.

(** The argument of [findAll]; a criterion that is not given is
    [undefined]. *)
Module Filters.
Record t `{NumberType} : Type :=
  { title : JsValue; minSalary : JsValue; hasEquity : JsValue; companyHandle : JsValue }.
End Filters.

Section job.
Context `{JsNumber}.

(** [if (job.equity !== null) { job.equity = parseFloat(job.equity); }],
    the three lines that end every method returning a job. *)
Definition equity_to_float (job : gmap string JsValue) : gmap string JsValue :=
  if decide (prop job "equity" ≠ JNull)
  then <["equity" := JNum (parseFloat (prop job "equity"))]> job
  else job.

(** Reading [job.equity] when [rows[0]] is [undefined]. *)
Definition undefined_equity : Error :=
  TypeError "Cannot read properties of undefined (reading 'equity')".

Definition duplicateCheck_sql : string :=
  "SELECT title " +:+ LF +:+ spaces 7 +:+ "FROM jobs " +:+ LF +:+ spaces 7
    +:+ "WHERE title = $1 AND company_handle = $2".

Definition insert_sql : string :=
  "INSERT INTO jobs (title, salary, equity, company_handle)" +:+ LF +:+ spaces 7
    +:+ "VALUES ($1, $2, $3, $4)" +:+ LF +:+ spaces 7
    +:+ "RETURNING id, title, salary, equity, company_handle".

Definition create (data : NewJob) : Prog (gmap string JsValue) :=
  duplicateCheck ← db_query duplicateCheck_sql
                      [JStr (title data); JStr (company_handle data)];
  if rows duplicateCheck !! 0 is Some _ then
    Throw (BadRequestError ("Duplicate job: " +:+ title data
             +:+ " already exists for company: " +:+ company_handle data))
  else
    result ← db_query insert_sql
                [JStr (title data); salary data; equity data; JStr (company_handle data)];
    match rows result !! 0 with
    | None => Throw undefined_equity
    | Some job => Ret (equity_to_float job)
    end.

(** [findAll], first half: the four [if]s that push on [whereExpressions]
    and [queryValues]. *)
Definition findAll_where (f : Filters.t) : list string * list JsValue :=
  let whereExpressions : list string := [] in
  let queryValues : list JsValue := [] in
  let '(whereExpressions, queryValues) :=
    if truthy (Filters.title f) then
      let queryValues := queryValues ++ [JStr ("%" +:+ to_string (Filters.title f) +:+ "%")] in
      (whereExpressions ++ ["title ILIKE $" +:+ pretty (length queryValues)], queryValues)
    else (whereExpressions, queryValues) in
  let '(whereExpressions, queryValues) :=
    if decide (Filters.minSalary f ≠ JUndefined) then
      let queryValues := queryValues ++ [Filters.minSalary f] in
      (whereExpressions ++ ["salary >= $" +:+ pretty (length queryValues)], queryValues)
    else (whereExpressions, queryValues) in
  let whereExpressions :=
    if decide (Filters.hasEquity f = JBool true) then whereExpressions ++ ["equity > 0"]
    else whereExpressions in
  let '(whereExpressions, queryValues) :=
    if truthy (Filters.companyHandle f) then
      let queryValues := queryValues ++ [Filters.companyHandle f] in
      (whereExpressions ++ ["company_handle = $" +:+ pretty (length queryValues)], queryValues)
    else (whereExpressions, queryValues) in
  (whereExpressions, queryValues).

Definition select_sql : string :=
  "SELECT id, title, salary, equity, company_handle" +:+ LF +:+ spaces 17 +:+ "FROM jobs".

(** [findAll], second half: the statement text and its parameters. *)
Definition findAll_query (f : Filters.t) : string * list JsValue :=
  let query := select_sql in
  let '(whereExpressions, queryValues) := findAll_where f in
  let query :=
    if decide (0 < length whereExpressions)
    then query +:+ " WHERE " +:+ String.concat " AND " whereExpressions
    else query in
  let query := query +:+ " ORDER BY title" in
  (query, queryValues).

Definition findAll (f : Filters.t) : Prog (list (gmap string JsValue)) :=
  let '(query, queryValues) := findAll_query f in
  jobsRes ← db_query query queryValues;
  let jobs := equity_to_float <$> rows jobsRes in
  Ret jobs.

(** [findAll()]: the default argument [{}]. *)
Definition no_filters : Filters.t :=
  {| Filters.title := JUndefined; Filters.minSalary := JUndefined;
     Filters.hasEquity := JUndefined; Filters.companyHandle := JUndefined |}.

Definition get_sql : string :=
  "SELECT id, title, salary, equity, company_handle" +:+ LF +:+ spaces 7
    +:+ "FROM jobs" +:+ LF +:+ spaces 7 +:+ "WHERE id = $1".

Definition get (id : JsValue) : Prog (gmap string JsValue) :=
  jobRes ← db_query get_sql [id];
  match rows jobRes !! 0 with
  | None => Throw (NotFoundError ("No job: " +:+ to_string id))
  | Some job => Ret (equity_to_float job)
  end.

(** The data [update] is documented for ("Data can include: { title,
    salary, equity }"): some of these fields, each at most once as the keys
    of an object are. *)
Definition updatable_fields : list string := ["title"; "salary"; "equity"].

Definition updatable (data : list (string * JsValue)) : Prop :=
  data ≠ [] ∧ NoDup data.*1 ∧ data.*1 ⊆ updatable_fields.

(** The mapping [update] hands to [sqlForPartialUpdate]. *)
Definition update_jsToSql : gmap string JsValue :=
  {[ "title" := JStr "title"; "salary" := JStr "salary"; "equity" := JStr "equity" ]}.

(** The template literal [querySql] of [update]. *)
Definition update_sql (setCols jobIdIdx : string) : string :=
  "UPDATE jobs " +:+ LF +:+ spaces 22 +:+ "SET " +:+ setCols +:+ " " +:+ LF +:+ spaces 22
    +:+ "WHERE id = " +:+ jobIdIdx +:+ " " +:+ LF +:+ spaces 22
    +:+ "RETURNING id, title, salary, equity, company_handle".

Definition update (id : JsValue) (data : list (string * JsValue)) : Prog (gmap string JsValue) :=
  match Sql.sqlForPartialUpdate data update_jsToSql with
  | inl e => Throw e
  | inr {| Sql.setCols := setCols; Sql.values := values |} =>
      let jobIdIdx := "$" +:+ pretty (length values + 1) in
      let querySql := update_sql setCols jobIdIdx in
      result ← db_query querySql (values ++ [id]);
      match rows result !! 0 with
      | None => Throw (NotFoundError ("No job: " +:+ to_string id))
      | Some job => Ret (equity_to_float job)
      end
  end.

Definition remove_sql : string :=
  "DELETE FROM jobs " +:+ LF +:+ spaces 7 +:+ "WHERE id = $1 " +:+ LF +:+ spaces 7
    +:+ "RETURNING id".

Definition remove (id : JsValue) : Prog () :=
  result ← db_query remove_sql [id];
  if rows result !! 0 is Some _ then Ret ()
  else Throw (NotFoundError ("No job: " +:+ to_string id)).

End job.
End Job.

(** ** The earlier copy of the model

    The sources hold a second copy of the [Job] class, the same statements
    without the equity conversion at the end of [create], [findAll], [get]
    and [update].  The routes and the tests load [models/job.js]; the copy
    is kept here to state the difference. *)

Module JobVariant.
Section variant.
Context `{JsNumber}.

(** [rows[0]] is returned as it is: [None] stands for [undefined]. *)
Definition create (data : Job.NewJob) : Prog (option (gmap string JsValue)) :=
  duplicateCheck ← db_query Job.duplicateCheck_sql
                      [JStr (Job.title data); JStr (Job.company_handle data)];
  if rows duplicateCheck !! 0 is Some _ then
    Throw (BadRequestError ("Duplicate job: " +:+ Job.title data
             +:+ " already exists for company: " +:+ Job.company_handle data))
  else
    result ← db_query Job.insert_sql
                [JStr (Job.title data); Job.salary data; Job.equity data;
                 JStr (Job.company_handle data)];
    let job := rows result !! 0 in
    Ret job.

Definition findAll (f : Job.Filters.t) : Prog (list (gmap string JsValue)) :=
  let '(query, queryValues) := Job.findAll_query f in
  jobsRes ← db_query query queryValues;
  Ret (rows jobsRes).

Definition get (id : JsValue) : Prog (gmap string JsValue) :=
  jobRes ← db_query Job.get_sql [id];
  match rows jobRes !! 0 with
  | None => Throw (NotFoundError ("No job: " +:+ to_string id))
  | Some job => Ret job
  end.

Definition update (id : JsValue) (data : list (string * JsValue)) : Prog (gmap string JsValue) :=
  match Sql.sqlForPartialUpdate data Job.update_jsToSql with
  | inl e => Throw e
  | inr {| Sql.setCols := setCols; Sql.values := values |} =>
      let jobIdIdx := "$" +:+ pretty (length values + 1) in
      let querySql := Job.update_sql setCols jobIdIdx in
      result ← db_query querySql (values ++ [id]);
      match rows result !! 0 with
      | None => Throw (NotFoundError ("No job: " +:+ to_string id))
      | Some job => Ret job
      end
  end.

End variant.
End JobVariant.

(** ** The store *)

Module Store.
Section store.
Context `{JsNumber}.

(** Modelled from the spec: the backing relational store behind [db.query]
    ([db.js] and the schema are not among the sources).  It is the [jobs]
    table with a serial key, answering the statements [Job.create],
    [Job.get], [Job.update] and [Job.remove] send; rows come back as
    objects keyed by column name.  Constraints of the schema and the list
    statements of [Job.findAll] are outside the model: any other text is
    refused. *)
Record Table : Type := { jobs : list (gmap string JsValue); next_id : nat }.

#[global] Instance Table_eq_dec : EqDecision Table.
Proof. solve_decision. Defined.

(** The driver sends [undefined] as NULL. *)
Definition bound (v : JsValue) : JsValue :=
  match v with JUndefined => JNull | _ => v end.

(** [column = $k]: never true on NULL. *)
Definition sql_eq (a b : JsValue) : Prop := a ≠ JNull ∧ b ≠ JNull ∧ a = b.

#[global] Instance sql_eq_dec a b : Decision (sql_eq a b).
Proof. unfold sql_eq. apply _. Defined.

Definition has_id (id : JsValue) (r : gmap string JsValue) : Prop :=
  sql_eq (prop r "id") (bound id).

#[global] Instance has_id_dec id r : Decision (has_id id r).
Proof. unfold has_id. apply _. Defined.

Definition same_job (title company_handle : JsValue) (r : gmap string JsValue) : Prop :=
  sql_eq (prop r "title") (bound title)
  ∧ sql_eq (prop r "company_handle") (bound company_handle).

#[global] Instance same_job_dec title company_handle r :
  Decision (same_job title company_handle r).
Proof. unfold same_job. apply _. Defined.

(** [SELECT c] and [RETURNING c]: the row cut down to one column. *)
Definition only (c : string) (r : gmap string JsValue) : gmap string JsValue :=
  {[ c := prop r c ]}.

Definition job_columns : list string :=
  ["id"; "title"; "salary"; "equity"; "company_handle"].

(** The names between double quotes in a statement, left to right. *)
Fixpoint quoted_from (s : string) (cur : option string) : list string :=
  match s with
  | EmptyString => []
  | String c s' =>
      if decide (String c EmptyString = dq) then
        match cur with
        | None => quoted_from s' (Some "")
        | Some name => name :: quoted_from s' None
        end
      else
        match cur with
        | None => quoted_from s' None
        | Some name => quoted_from s' (Some (name +:+ String c EmptyString))
        end
  end.

Definition quoted (s : string) : list string := quoted_from s None.

(** The text of [UPDATE jobs SET "c1"=$1, ..., "cn"=$n WHERE id = $n+1
    RETURNING ...], the one shape of update the model reads. *)
Definition update_text (cols : list string) : string :=
  Job.update_sql
    (String.concat ", " (imap (λ i c, dq +:+ c +:+ dq +:+ "=$" +:+ pretty (i + 1)) cols))
    ("$" +:+ pretty (length cols + 1)).

(** [SET c1 = v1, ..., cn = vn] on one row. *)
Definition assign (cols : list string) (vals : list JsValue)
    (r : gmap string JsValue) : gmap string JsValue :=
  foldl (λ r cv, <[cv.1 := bound cv.2]> r) r (zip cols vals).

(** The row [INSERT] stores: the next serial key and the four values. *)
Definition new_job (st : Table) (title salary equity company_handle : JsValue)
    : gmap string JsValue :=
  {[ "id" := JNum (number_of_nat (next_id st)); "title" := bound title;
     "salary" := bound salary; "equity" := bound equity;
     "company_handle" := bound company_handle ]}.

Definition refused (st : Table) : (Error + QueryResult) * Table :=
  (inl (StoreError "statement not understood"), st).

(** Modelled from the spec: [execute(statementText, positionalParameters)
    -> rows], the interface of the store, on the table above.  A statement
    is known by its text; values are compared as they are, without the
    casts of the store. *)
Definition execute : Handler Table := λ text params st,
  if decide (text = Job.duplicateCheck_sql) then
    match params with
    | [title; company_handle] =>
        (inr {| rows := only "title" <$> filter (same_job title company_handle) (jobs st) |}, st)
    | _ => refused st
    end
  else if decide (text = Job.insert_sql) then
    match params with
    | [title; salary; equity; company_handle] =>
        let job := new_job st title salary equity company_handle in
        (inr {| rows := [job] |},
         {| jobs := jobs st ++ [job]; next_id := S (next_id st) |})
    | _ => refused st
    end
  else if decide (text = Job.get_sql) then
    match params with
    | [id] => (inr {| rows := filter (has_id id) (jobs st) |}, st)
    | _ => refused st
    end
  else if decide (text = Job.remove_sql) then
    match params with
    | [id] =>
        (inr {| rows := only "id" <$> filter (has_id id) (jobs st) |},
         {| jobs := filter (λ r, ¬ has_id id r) (jobs st); next_id := next_id st |})
    | _ => refused st
    end
  else
    let cols := quoted text in
    if decide (text = update_text cols ∧ cols ≠ [] ∧ NoDup cols ∧ cols ⊆ job_columns
               ∧ length params = length cols + 1) then
      let id := default JNull (last params) in
      (inr {| rows := assign cols params <$> filter (has_id id) (jobs st) |},
       {| jobs := (λ r, if decide (has_id id r) then assign cols params r else r) <$> jobs st;
          next_id := next_id st |})
    else refused st.

Definition empty : Table := {| jobs := []; next_id := 1 |}.

End store.
End Store.

(** ** The company list operation *)

Module Company.

(** The filter of the company list: a name and two employee counts, each
    of which may be missing. *)
Record Filters `{NumberType} : Type :=
  { name : JsValue; minEmployees : option Z; maxEmployees : option Z }.

Section company.
Context `{JsNumber}.

(** Modelled from the spec: the range check that opens the company list
    operation ([models/company.js] and [routes/companies.js] are not among
    the sources; its route test is).  When both bounds are supplied and the
    minimum exceeds the maximum the request is rejected as invalid input,
    with the message the route test expects; otherwise the query is built
    and sent, which is [list_companies] here since the spec fixes none of
    its text. *)
Definition findAll {A} (list_companies : Filters → Prog A) (f : Filters) : Prog A :=
  match minEmployees f, maxEmployees f with
  | Some lo, Some hi =>
      if decide (lo > hi)%Z
      then Throw (BadRequestError "minEmployees cannot be greater than maxEmployees.")
      else list_companies f
  | _, _ => list_companies f
  end.

End company.
End Company.

(** ** middleware/auth.js *)

Module Auth.

(** What a middleware or a route hands to [next]: the [UnauthorizedError]
    of the guards, the [BadRequestError] a route throws with the list of
    validation messages, or an error thrown by the model. *)
Inductive RouteError : Type :=
  | UnauthorizedError
  | InvalidBody (errs : list string)
  | Thrown (e : Error).

#[global] Instance RouteError_eq_dec : EqDecision RouteError.
Proof. solve_decision. Defined.

(** White space for [trim].  A header reaches the code as a string of
    code units below 256, which is what a [string] holds here; among
    those, [trim] removes tab, line feed, vertical tab, form feed, carriage
    return, space and the no-break space. *)
Definition is_space (c : Ascii.ascii) : bool :=
  bool_decide (Ascii.nat_of_ascii c ∈ [9; 10; 11; 12; 13; 32; 160]).

Fixpoint trim_start (s : string) : string :=
  match s with
  | EmptyString => ""
  | String c s' => if is_space c then trim_start s' else s
  end.

Fixpoint trim_end (s : string) : string :=
  match s with
  | EmptyString => ""
  | String c s' =>
      match trim_end s' with
      | EmptyString => if is_space c then "" else String c ""
      | t => String c t
      end
  end.

(** [s.trim()] *)
Definition trim (s : string) : string := trim_end (trim_start s).

Fixpoint drop_chars (n : nat) (s : string) : string :=
  match n, s with
  | S n, String _ s' => drop_chars n s'
  | _, _ => s
  end.

(** [s.replace(/^[Bb]earer /, "")] *)
Definition strip_bearer (s : string) : string :=
  if String.prefix "Bearer " s || String.prefix "bearer " s then drop_chars 7 s else s.

Section auth.
Context `{JsNumber}.

(** [res.locals]: [user] is the payload of the token, an object, once a
    token was verified, and is not there ([None]) before. *)
Record Locals : Type := { user : option (gmap string JsValue) }.

#[global] Instance Locals_eq_dec : EqDecision Locals.
Proof. solve_decision. Defined.

(** What a middleware does with [next]: [None] for [next()], [Some err]
    for [next(err)]. *)
Definition Passed : Type := option RouteError.

(** [req.headers && req.headers.authorization] *)
Definition authorization (headers : option (gmap string JsValue)) : JsValue :=
  match headers with
  | None => JUndefined
  | Some headers => prop headers "authorization"
  end.

(** [res.locals] of a request no middleware has touched. *)
Definition no_user : Locals := {| user := None |}.

(** [authenticateJWT]: [verify] is [jwt.verify(_, SECRET_KEY)], which
    gives the payload or throws ([None]); [headers] is [req.headers].
    Whatever is thrown inside the [try] ends in [next()]. *)
Definition authenticateJWT (verify : string → option (gmap string JsValue))
    (headers : option (gmap string JsValue)) (locals : Locals) : Locals * Passed :=
  let authHeader := authorization headers in
  if truthy authHeader then
    match authHeader with
    | JStr authHeader =>
        let token := trim (strip_bearer authHeader) in
        match verify token with
        | Some payload => ({| user := Some payload |}, None)
        | None => (locals, None)
        end
    | _ => (locals, None)
    end
  else (locals, None).

Definition ensureLoggedIn (locals : Locals) : Passed :=
  match user locals with
  | None => Some UnauthorizedError
  | Some _ => None
  end.

Definition ensureAdmin (locals : Locals) : Passed :=
  match user locals with
  | None => Some UnauthorizedError
  | Some user => if truthy (prop user "isAdmin") then None else Some UnauthorizedError
  end.

(** [username] is [req.params.username], a string as route parameters are. *)
Definition ensureCorrectUserOrAdmin (username : string) (locals : Locals) : Passed :=
  match user locals with
  | None => Some UnauthorizedError
  | Some user =>
      if truthy (prop user "isAdmin") || bool_decide (prop user "username" = JStr username)
      then None else Some UnauthorizedError
  end.

(** The handlers registered on a route run in turn as long as each calls
    [next()]; the first [next(err)] ends the chain with that error. *)
Fixpoint guards (chain : list (Locals → Passed)) (locals : Locals) : Passed :=
  match chain with
  | [] => None
  | guard :: chain =>
      match guard locals with
      | Some err => Some err
      | None => guards chain locals
      end
  end.

End auth.
End Auth.

(** ** routes/jobs.js *)

Module Routes.

(** The JSON a route answers with. *)
Inductive Body `{NumberType} : Type :=
  | JobBody (job : gmap string JsValue)
  | JobsBody (jobs : list (gmap string JsValue))
  | ErrorBody (error : string)
  | DeletedBody (deleted : string).

(** A route ends in [res.status(s).json(body)] or in [next(err)]. *)
Inductive Reply `{NumberType} : Type :=
  | Json (status : nat) (body : Body)
  | Next (err : Auth.RouteError).

#[global] Instance Body_eq_dec `{JsNumber} : EqDecision Body.
Proof. solve_decision. Defined.

#[global] Instance Reply_eq_dec `{JsNumber} : EqDecision Reply.
Proof. solve_decision. Defined.

Section routes.
Context `{JsNumber}.

(** [jsonschema.validate(req.body, schema)] seen through what the routes
    read of it: the messages [validator.errors.map(e => e.stack)], the
    body being valid when there are none.  The two schemas are the
    parameters [jobNewSchema] and [jobUpdateSchema]; [parseInt] is the
    builtin. *)
Variable jobNewSchema : Job.NewJob → list string.
Variable jobUpdateSchema : list (string * JsValue) → list string.
Variable parseInt : JsValue → number.

(** [catch (err) { return next(err); }] *)
Definition to_next (err : Error) : Reply := Next (Auth.Thrown err).

(** The [catch] of [GET /:id]: a [NotFoundError] is answered with 404. *)
Definition not_found_or_next (err : Error) : Reply :=
  match err with
  | NotFoundError message => Json 404 (ErrorBody message)
  | _ => Next (Auth.Thrown err)
  end.

(** Running a route: what its [try] block returns, or what its [catch]
    makes of the error thrown in it, store failures included. *)
Definition answer {S} (h : Handler S) (catch : Error → Reply) (route : Prog Reply) (st : S)
    : Reply * S :=
  match run h route st with
  | (inr reply, st') => (reply, st')
  | (inl err, st') => (catch err, st')
  end.

(** [ensureLoggedIn, ensureAdmin] in front of a handler. *)
Definition admin_only (locals : Auth.Locals) (handler : Prog Reply) : Prog Reply :=
  match Auth.guards [Auth.ensureLoggedIn; Auth.ensureAdmin] locals with
  | Some err => Ret (Next err)
  | None => handler
  end.

(** [POST /]: [req.body] is read through the four fields [Job.create]
    takes from it.  The [BadRequestError] thrown with the validation
    messages is caught by the route's own [catch] and handed to [next]. *)
Definition post_job (locals : Auth.Locals) (body : Job.NewJob) : Prog Reply :=
  admin_only locals
    match jobNewSchema body with
    | [] => job ← Job.create body; Ret (Json 201 (JobBody job))
    | errs => Ret (Next (Auth.InvalidBody errs))
    end.

(** The filters [GET /] builds from [req.query]. *)
Definition filters (query : gmap string JsValue) : Job.Filters.t :=
  let title := prop query "title" in
  let minSalary := prop query "minSalary" in
  let hasEquity := prop query "hasEquity" in
  {| Job.Filters.title := if truthy title then title else JUndefined;
     Job.Filters.minSalary :=
       if decide (minSalary ≠ JUndefined) then JNum (parseInt minSalary) else JUndefined;
     Job.Filters.hasEquity :=
       if decide (hasEquity = JStr "true") then JBool true else JUndefined;
     Job.Filters.companyHandle := JUndefined |}.

(** [GET /] *)
Definition get_jobs (query : gmap string JsValue) : Prog Reply :=
  jobs ← Job.findAll (filters query);
  Ret (Json 200 (JobsBody jobs)).

(** [GET /:id] *)
Definition get_job (id : string) : Prog Reply :=
  job ← Job.get (JStr id);
  Ret (Json 200 (JobBody job)).

(** [PATCH /:id] *)
Definition patch_job (locals : Auth.Locals) (id : string) (body : list (string * JsValue))
    : Prog Reply :=
  admin_only locals
    match jobUpdateSchema body with
    | [] => job ← Job.update (JStr id) body; Ret (Json 200 (JobBody job))
    | errs => Ret (Next (Auth.InvalidBody errs))
    end.

(** [DELETE /:id] *)
Definition delete_job (locals : Auth.Locals) (id : string) : Prog Reply :=
  admin_only locals (_ ← Job.remove (JStr id); Ret (Json 200 (DeletedBody id))).

End routes.
End Routes.

(** ** A Number type to evaluate with

    Decimal numbers [± digits / 10^scale] and [NaN]: enough of the doubles
    to run the code on the values of the tests ([100000], [0.1], ["0.1"]).
    [parseFloat] reads an optional sign, digits and an optional fraction. *)

Module Decimal.

Inductive t : Type := NaN | Dec (neg : bool) (digits : N) (scale : nat).

#[global] Instance t_eq_dec : EqDecision t.
Proof. solve_decision. Defined.

Definition digit (c : Ascii.ascii) : option N :=
  let n := Ascii.N_of_ascii c in
  if decide (48 ≤ n ∧ n ≤ 57)%N then Some (n - 48)%N else None.

Fixpoint read_digits (s : string) (acc : N) (count : nat) : N * nat * string :=
  match s with
  | EmptyString => (acc, count, s)
  | String c s' =>
      match digit c with
      | Some d => read_digits s' (10 * acc + d)%N (S count)
      | None => (acc, count, s)
      end
  end.

(** Trailing zeros of the fraction are dropped, so that a value has one form. *)
Fixpoint normal (digits : N) (scale : nat) : N * nat :=
  match scale with
  | 0 => (digits, 0)
  | S scale' =>
      if decide (digits `mod` 10 = 0)%N then normal (digits `div` 10)%N scale'
      else (digits, scale)
  end.

(** The first character of [s] is the one of the one-character string [c]. *)
Definition starts (c s : string) : bool :=
  match s with
  | EmptyString => false
  | String a _ => bool_decide (String a EmptyString = c)
  end.

Definition tail (s : string) : string :=
  match s with EmptyString => "" | String _ s' => s' end.

Definition parse (s : string) : t :=
  let neg := starts "-" s in
  let s := if neg then tail s else s in
  let '(int, n, rest) := read_digits s 0 0 in
  if starts "." rest then
    let '(all, m, _) := read_digits (tail rest) int 0 in
    if decide (n + m = 0) then NaN
    else let '(d, e) := normal all m in Dec neg d e
  else if decide (n = 0) then NaN else Dec neg int 0.

Definition print (x : t) : string :=
  match x with
  | NaN => "NaN"
  | Dec neg digits scale =>
      let unit := (10 ^ N.of_nat scale)%N in
      (if neg && negb (digits =? 0)%N then "-" else "")
        +:+ pretty (digits `div` unit)%N
        +:+ (if decide (scale = 0) then ""
             else "." +:+ tail (pretty (unit + digits `mod` unit)%N))
  end.

Definition decimal : NumberType := {| number := t |}.

Definition decimal_number : @JsNumber decimal :=
  @Build_JsNumber decimal t_eq_dec
    (λ x, match x with NaN => false | Dec _ d _ => negb (d =? 0)%N end)
    print parse (λ n, Dec false (N.of_nat n) 0).

End Decimal.

(** ** Values of the tests *)

Module Sample.

#[local] Existing Instance Decimal.decimal.
#[local] Existing Instance Decimal.decimal_number.

Definition int (n : N) : JsValue := JNum (Decimal.Dec false n 0).

(** [{ firstName: 'John', age: 30 }] and [{ firstName: 'first_name' }] *)
Definition john : list (string * JsValue) := [("firstName", JStr "John"); ("age", int 30)].
Definition first_name : gmap string JsValue := {[ "firstName" := JStr "first_name" ]}.


(** A mapper whose entry for [a] is the empty string. *)
Definition blank : gmap string JsValue := {[ "a" := JStr "" ]}.

(** [{ title: "New Job", salary: 100000, equity: 0.1, company_handle: "c1" }] *)
Definition new_job : Job.NewJob :=
  {| Job.title := "New Job"; Job.salary := int 100000;
     Job.equity := JNum (Decimal.Dec false 1 1); Job.company_handle := "c1" |}.

(** The table after that job was created in an empty one. *)
Definition one_job : Store.Table := (run Store.execute (Job.create new_job) Store.empty).2.

(** The row of that job as the table holds it. *)
Definition stored : gmap string JsValue :=
  {[ "id" := int 1; "title" := JStr "New Job"; "salary" := int 100000;
     "equity" := JNum (Decimal.Dec false 1 1); "company_handle" := JStr "c1" ]}.

(** [{ title: "Updated Job" }] *)
Definition new_title : list (string * JsValue) := [("title", JStr "Updated Job")].

(** Filters with one criterion each. *)
Definition empty_title : Job.Filters.t :=
  {| Job.Filters.title := JStr ""; Job.Filters.minSalary := JUndefined;
     Job.Filters.hasEquity := JUndefined; Job.Filters.companyHandle := JUndefined |}.
Definition no_equity : Job.Filters.t :=
  {| Job.Filters.title := JUndefined; Job.Filters.minSalary := JUndefined;
     Job.Filters.hasEquity := JBool false; Job.Filters.companyHandle := JUndefined |}.

(** All four criteria. *)
Definition full : Job.Filters.t :=
  {| Job.Filters.title := JStr "dev"; Job.Filters.minSalary := int 200000;
     Job.Filters.hasEquity := JBool true; Job.Filters.companyHandle := JStr "c1" |}.

(** [{ minEmployees: 100, maxEmployees: 50 }] *)
Definition crossed : Company.Filters :=
  {| Company.name := JUndefined; Company.minEmployees := Some 100%Z;
     Company.maxEmployees := Some 50%Z |}.

End Sample.

(** ** The vocabulary of the statements

    [render_set], [mapped_name], [present], [predicates], [numbered] and
    [where_clause] follow the words of the specification; [effective] and
    [surfaced] name what the code does. *)

Module Terms.
Section terms.
Context `{JsNumber}.




(** The number of criteria that are present (not [undefined]). *)
Definition present (f : Job.Filters.t) : nat :=
  length (filter (λ v, v ≠ JUndefined)
            [Job.Filters.title f; Job.Filters.minSalary f;
             Job.Filters.hasEquity f; Job.Filters.companyHandle f]).

(** The number of criteria that pass the guard of their [if]: a truthy
    title, a salary bound that is not [undefined], an equity flag that is
    [true], a truthy company handle. *)
Definition effective (f : Job.Filters.t) : nat :=
  (if truthy (Job.Filters.title f) then 1 else 0)
  + (if decide (Job.Filters.minSalary f = JUndefined) then 0 else 1)
  + (if decide (Job.Filters.hasEquity f = JBool true) then 1 else 0)
  + (if truthy (Job.Filters.companyHandle f) then 1 else 0).


(** A predicate of the filter: its text before the placeholder, and the
    value it binds if it has a placeholder. *)
Definition Predicate : Type := string * option JsValue.

(** The criteria in their documented order: text match on the title,
    minimum salary, the equity flag, exact match on the company. *)
Definition predicates (f : Job.Filters.t) : list (option Predicate) :=
  [ if truthy (Job.Filters.title f)
    then Some ("title ILIKE ", Some (JStr ("%" +:+ to_string (Job.Filters.title f) +:+ "%")))
    else None;
    if decide (Job.Filters.minSalary f = JUndefined) then None
    else Some ("salary >= ", Some (Job.Filters.minSalary f));
    if decide (Job.Filters.hasEquity f = JBool true) then Some ("equity > 0", None) else None;
    if truthy (Job.Filters.companyHandle f)
    then Some ("company_handle = ", Some (Job.Filters.companyHandle f))
    else None ].

(** Placeholders are numbered in that order, [n] being the number of values
    bound so far; a predicate without a value takes no number. *)
Fixpoint numbered (n : nat) (ps : list (option Predicate)) : list string * list JsValue :=
  match ps with
  | [] => ([], [])
  | None :: ps => numbered n ps
  | Some (text, None) :: ps =>
      let '(fragments, bound) := numbered n ps in (text :: fragments, bound)
  | Some (text, Some v) :: ps =>
      let '(fragments, bound) := numbered (S n) ps in
      ((text +:+ "$" +:+ pretty (S n)) :: fragments, v :: bound)
  end.

(** The fragments joined with AND behind WHERE, nothing when there are none. *)
Fixpoint conjunction (fragments : list string) : string :=
  match fragments with
  | [] => ""
  | [p] => p
  | p :: rest => p +:+ " AND " +:+ conjunction rest
  end.

Definition where_clause (fragments : list string) : string :=
  match fragments with
  | [] => ""
  | _ => " WHERE " +:+ conjunction fragments
  end.

End terms.
End Terms.

(** ** Requests *)

Module RouteTerms.

(** A string made of white space only. *)
Fixpoint blank (s : string) : bool :=
  match s with
  | EmptyString => true
  | String c s' => Auth.is_space c && blank s'
  end.

Section terms.
Context `{JsNumber}.

(** The headers of a request that carries [header] as its authorization. *)
Definition with_authorization (header : string) (others : gmap string JsValue)
    : option (gmap string JsValue) :=
  Some (<["authorization" := JStr header]> others).

End terms.
End RouteTerms.

(** ** Values of the route tests *)

Module RouteSample.

#[local] Existing Instance Decimal.decimal.
#[local] Existing Instance Decimal.decimal_number.

(** The payloads of the two tokens of the tests: a user and an admin. *)
Definition u1 : gmap string JsValue :=
  {[ "username" := JStr "u1"; "isAdmin" := JBool false ]}.
Definition admin : gmap string JsValue :=
  {[ "username" := JStr "admin"; "isAdmin" := JBool true ]}.

(** A [jwt.verify] that knows those two tokens. *)
Definition verify (token : string) : option (gmap string JsValue) :=
  if decide (token = "u1Token") then Some u1
  else if decide (token = "adminToken") then Some admin
  else None.

Definition as_u1 : Auth.Locals := {| Auth.user := Some u1 |}.
Definition as_admin : Auth.Locals := {| Auth.user := Some admin |}.

(** A schema for new jobs that asks for a title, and one for updates that
    allows the three documented fields. *)
Definition jobNewSchema (body : Job.NewJob) : list string :=
  if decide (Job.title body = "")
  then ["instance.title does not meet minimum length of 1"] else [].

Definition jobUpdateSchema (data : list (string * JsValue)) : list string :=
  if decide (data.*1 ⊆ Job.updatable_fields) then []
  else ["instance is not allowed to have additional properties"].

(** A [parseInt] on the decimal numbers: the integer part of what
    [parseFloat] reads. *)
Definition parseInt (v : JsValue) : Decimal.t :=
  match Decimal.parse (to_string v) with
  | Decimal.Dec neg digits scale => Decimal.Dec neg (digits `div` 10 ^ N.of_nat scale) 0
  | Decimal.NaN => Decimal.NaN
  end.

(** A new job without a title. *)
Definition untitled : Job.NewJob :=
  {| Job.title := ""; Job.salary := Sample.int 100000; Job.equity := JNull;
     Job.company_handle := "c1" |}.

(** [{ id: 7 }], a field [update] is not documented for. *)
Definition new_id : list (string * JsValue) := [("id", Sample.int 7)].

(** [?title=dev&minSalary=200000&hasEquity=true&companyHandle=c1] *)
Definition query : gmap string JsValue :=
  {[ "title" := JStr "dev"; "minSalary" := JStr "200000"; "hasEquity" := JStr "true";
     "companyHandle" := JStr "c1" ]}.

(** The filters of [Sample.full] with other values. *)
Definition full_too : Job.Filters.t :=
  {| Job.Filters.title := JStr "eng"; Job.Filters.minSalary := Sample.int 1;
     Job.Filters.hasEquity := JBool true; Job.Filters.companyHandle := JStr "c2" |}.

(** A store that answers every statement with the same rows. *)
Definition answering (reply : list (gmap string JsValue)) : Handler () :=
  λ _ _ st, (inr {| rows := reply |}, st).

(** The row [DELETE ... RETURNING id] gives for job 1. *)
Definition deleted_row : gmap string JsValue := {[ "id" := Sample.int 1 ]}.

(** The table of [Sample.one_job] after its job was removed, and after its
    title was updated; the job with the new title. *)
Definition after_removal : Store.Table :=
  (run Store.execute (Job.remove (Sample.int 1)) Sample.one_job).2.
Definition after_update : Store.Table :=
  (run Store.execute (Job.update (Sample.int 1) Sample.new_title) Sample.one_job).2.
Definition renamed : gmap string JsValue := <["title" := JStr "Updated Job"]> Sample.stored.

End RouteSample.

(** * Properties *)

(** ** sqlForPartialUpdate *)

Module SqlFacts.
Section facts.
Context `{JsNumber}.

Implicit Types (data : list (string * JsValue)) (jsToSql : gmap string JsValue).




Lemma sqlForPartialUpdate_nonempty data jsToSql :
  data ≠ [] →
  Sql.sqlForPartialUpdate data jsToSql
  = inr {| Sql.setCols := String.concat ", " (imap (Sql.column jsToSql) data.*1);
           Sql.values := data.*2 |}.
Proof.
  intros Hne. unfold Sql.sqlForPartialUpdate, Object_keys, Object_values.
  destruct data; [done|]. done.
Qed.

Lemma sqlForPartialUpdate_empty jsToSql :
  Sql.sqlForPartialUpdate [] jsToSql = inl (BadRequestError "No data").
Proof. reflexivity. Qed.


(** C2. The builder fails, with the bad-request error "No data", exactly
    when the field map is empty, and returns a result exactly when it is
    not. *)
Theorem C2_error_iff_empty data jsToSql :
  (Sql.sqlForPartialUpdate data jsToSql = inl (BadRequestError "No data") ↔ data = [])
  ∧ ((∃ e, Sql.sqlForPartialUpdate data jsToSql = inl e) ↔ data = [])
  ∧ ((∃ r, Sql.sqlForPartialUpdate data jsToSql = inr r) ↔ data ≠ []).
Proof.
  destruct data as [|kv data].
  - rewrite sqlForPartialUpdate_empty. split_and!; split; try done; eauto.
    by intros [? ?].
  - rewrite sqlForPartialUpdate_nonempty by done.
    split_and!; split; try done; eauto. by intros [? ?].
Qed.


End facts.
End SqlFacts.

(** ** The filter of Job.findAll *)

Module FilterFacts.
Section facts.
Context `{JsNumber}.

Lemma app_assoc (a b c : string) : (a +:+ b) +:+ c = a +:+ b +:+ c.
Proof.
  induction a as [|x a IH]; [done|].
  change (String x ((a +:+ b) +:+ c) = String x (a +:+ b +:+ c)). by rewrite IH.
Qed.

Lemma join_and (fragments : list string) :
  String.concat " AND " fragments = Terms.conjunction fragments.
Proof.
  induction fragments as [|p [|q fragments] IH]; [done..|].
  change (p +:+ " AND " +:+ String.concat " AND " (q :: fragments)
          = p +:+ " AND " +:+ Terms.conjunction (q :: fragments)).
  by rewrite IH.
Qed.

(** The four [if]s push what the specification lists, numbered in order. *)
Lemma findAll_where_numbered (f : Job.Filters.t) :
  Job.findAll_where f = Terms.numbered 0 (Terms.predicates f).
Proof.
  unfold Job.findAll_where, Terms.predicates.
  destruct (truthy (Job.Filters.title f)), (truthy (Job.Filters.companyHandle f));
    repeat case_decide; try done; reflexivity.
Qed.

Lemma numbered_length (n : nat) (ps : list (option Terms.Predicate)) :
  length (Terms.numbered n ps).1 = length (filter is_Some ps).
Proof.
  revert n. induction ps as [|[[text [v|]]|] ps IH]; intros n; simpl; [done|..].
  - specialize (IH (S n)). destruct (Terms.numbered (S n) ps). simpl in *. by rewrite IH.
  - specialize (IH n). destruct (Terms.numbered n ps). simpl in *. by rewrite IH.
  - rewrite filter_cons_False by (by intros [? ?]). apply IH.
Qed.

Lemma findAll_query_where (f : Job.Filters.t) :
  Job.findAll_query f
  = (Job.select_sql +:+ Terms.where_clause (Job.findAll_where f).1 +:+ " ORDER BY title",
     (Job.findAll_where f).2).
Proof.
  unfold Job.findAll_query. destruct (Job.findAll_where f) as [ws vs]. simpl.
  case_decide as Hlen.
  - rewrite join_and. destruct ws as [|w ws]; [simpl in Hlen; lia|].
    unfold Terms.where_clause. by rewrite !app_assoc.
  - destruct ws; [done|simpl in Hlen; lia].
Qed.

(** [findAll] sends one statement, the one [findAll_query] builds. *)
Lemma findAll_sent {S} (h : Handler S) (f : Job.Filters.t) (st : S) :
  sent h (Job.findAll f) st = [Job.findAll_query f].
Proof.
  unfold Job.findAll. destruct (Job.findAll_query f) as [q vs]. simpl.
  by destruct (h q vs st) as [[e|r] st'].
Qed.

Lemma effective_filter (f : Job.Filters.t) :
  length (filter is_Some (Terms.predicates f)) = Terms.effective f.
Proof.
  unfold Terms.predicates, Terms.effective.
  destruct (truthy (Job.Filters.title f)), (truthy (Job.Filters.companyHandle f));
    repeat case_decide; try done; reflexivity.
Qed.

Lemma effective_le_present (f : Job.Filters.t) : Terms.effective f ≤ Terms.present f.
Proof.
  unfold Terms.effective, Terms.present.
  destruct f as [t m e c]. simpl.
  rewrite !filter_cons, filter_nil.
  destruct (truthy t) eqn:Ht, (truthy c) eqn:Hc;
    repeat case_decide; subst; simpl in *; try discriminate; try lia; try done.
Qed.

Lemma present_none (f : Job.Filters.t) : Terms.present f = 0 → f = Job.no_filters.
Proof.
  unfold Terms.present. destruct f as [t m e c]. simpl.
  rewrite !filter_cons, filter_nil.
  repeat case_decide; subst; simpl; try discriminate; done.
Qed.

(** C3 (amended). The number of predicate fragments is the number of
    criteria that pass their guard (a truthy title, a salary bound that is
    not undefined, an equity flag that is exactly true, a truthy company
    handle), which is at most the number of criteria present; with no
    criterion the predicate list is empty, and the one statement sent has
    no WHERE clause and no parameter. *)
Theorem C3_fragment_count (f : Job.Filters.t) :
  length (Job.findAll_where f).1 = Terms.effective f
  ∧ Terms.effective f ≤ Terms.present f
  ∧ (Terms.present f = 0 → f = Job.no_filters)
  ∧ Job.findAll_where Job.no_filters = ([], [])
  ∧ Job.findAll_query Job.no_filters = (Job.select_sql +:+ " ORDER BY title", [])
  ∧ ∀ S (h : Handler S) (st : S),
      sent h (Job.findAll Job.no_filters) st = [(Job.select_sql +:+ " ORDER BY title", [])].
Proof.
  split_and!.
  - by rewrite findAll_where_numbered, numbered_length, effective_filter.
  - apply effective_le_present.
  - apply present_none.
  - done.
  - done.
  - intros S h st. by rewrite findAll_sent.
Qed.

(** C4. The criteria are taken in the order title (ILIKE on the title
    wrapped in %), minSalary (salary >=), hasEquity, companyHandle (equality),
    placeholders being numbered 1, 2, ... in that order; hasEquity gives
    [equity > 0] and binds nothing; the fragments are joined with AND behind
    WHERE; the statement ends with ORDER BY title; and it is the one
    statement [findAll] sends. *)
Theorem C4_order_and_numbering (f : Job.Filters.t) :
  Job.findAll_where f = Terms.numbered 0 (Terms.predicates f)
  ∧ Job.findAll_query f
    = (Job.select_sql +:+ Terms.where_clause (Terms.numbered 0 (Terms.predicates f)).1
         +:+ " ORDER BY title",
       (Terms.numbered 0 (Terms.predicates f)).2)
  ∧ (truthy (Job.Filters.title f) = true → Job.Filters.minSalary f ≠ JUndefined →
     Job.Filters.hasEquity f = JBool true → truthy (Job.Filters.companyHandle f) = true →
     Job.findAll_where f
     = (["title ILIKE $1"; "salary >= $2"; "equity > 0"; "company_handle = $3"],
        [JStr ("%" +:+ to_string (Job.Filters.title f) +:+ "%");
         Job.Filters.minSalary f; Job.Filters.companyHandle f]))
  ∧ ∀ S (h : Handler S) (st : S), sent h (Job.findAll f) st = [Job.findAll_query f].
Proof.
  split_and!.
  - apply findAll_where_numbered.
  - by rewrite findAll_query_where, findAll_where_numbered.
  - intros Ht Hm He Hc. unfold Job.findAll_where. rewrite Ht, Hc.
    repeat case_decide; done.
  - intros S h st. apply findAll_sent.
Qed.

(** C10. An empty title, an empty company handle, or an equity flag other
    than [true] add nothing: each of them alone gives the statement text and
    the parameter list of the call without criteria, and the same program;
    next to other criteria each of them gives the fragments and values the
    missing criterion gives. *)
Theorem C10_falsy_criteria_ignored (v : JsValue) :
  v ≠ JBool true →
  let only_title := {| Job.Filters.title := JStr ""; Job.Filters.minSalary := JUndefined;
                       Job.Filters.hasEquity := JUndefined;
                       Job.Filters.companyHandle := JUndefined |} in
  let only_company := {| Job.Filters.title := JUndefined; Job.Filters.minSalary := JUndefined;
                         Job.Filters.hasEquity := JUndefined;
                         Job.Filters.companyHandle := JStr "" |} in
  let only_equity := {| Job.Filters.title := JUndefined; Job.Filters.minSalary := JUndefined;
                        Job.Filters.hasEquity := v;
                        Job.Filters.companyHandle := JUndefined |} in
  Job.findAll_query Job.no_filters = (Job.select_sql +:+ " ORDER BY title", [])
  ∧ Job.findAll_query only_title = Job.findAll_query Job.no_filters
  ∧ Job.findAll_query only_company = Job.findAll_query Job.no_filters
  ∧ Job.findAll_query only_equity = Job.findAll_query Job.no_filters
  ∧ Job.findAll only_title = Job.findAll Job.no_filters
  ∧ Job.findAll only_company = Job.findAll Job.no_filters
  ∧ Job.findAll only_equity = Job.findAll Job.no_filters
  ∧ (∀ title minSalary hasEquity companyHandle,
       Job.findAll_where
         {| Job.Filters.title := JStr ""; Job.Filters.minSalary := minSalary;
            Job.Filters.hasEquity := hasEquity; Job.Filters.companyHandle := companyHandle |}
       = Job.findAll_where
           {| Job.Filters.title := JUndefined; Job.Filters.minSalary := minSalary;
              Job.Filters.hasEquity := hasEquity;
              Job.Filters.companyHandle := companyHandle |}
       ∧ Job.findAll_where
           {| Job.Filters.title := title; Job.Filters.minSalary := minSalary;
              Job.Filters.hasEquity := hasEquity; Job.Filters.companyHandle := JStr "" |}
         = Job.findAll_where
             {| Job.Filters.title := title; Job.Filters.minSalary := minSalary;
                Job.Filters.hasEquity := hasEquity;
                Job.Filters.companyHandle := JUndefined |}
       ∧ Job.findAll_where
           {| Job.Filters.title := title; Job.Filters.minSalary := minSalary;
              Job.Filters.hasEquity := v; Job.Filters.companyHandle := companyHandle |}
         = Job.findAll_where
             {| Job.Filters.title := title; Job.Filters.minSalary := minSalary;
                Job.Filters.hasEquity := JUndefined;
                Job.Filters.companyHandle := companyHandle |}).
Proof.
  intros Hv only_title only_company only_equity.
  assert (Job.findAll_query only_equity = Job.findAll_query Job.no_filters) as He.
  { unfold Job.findAll_query, Job.findAll_where, only_equity. simpl.
    destruct (decide (v = JBool true)); [done|reflexivity]. }
  split_and!; try done.
  - unfold Job.findAll. by rewrite He.
  - intros title minSalary hasEquity companyHandle. split_and!; [done..|].
    unfold Job.findAll_where. cbn [Job.Filters.hasEquity].
    destruct (decide (v = JBool true)); [done|reflexivity].
Qed.

End facts.
End FilterFacts.

(** ** The store model on the statements of Job *)

Module StoreFacts.
Section facts.
Context `{JsNumber}.

Implicit Types (st : Store.Table) (r job : gmap string JsValue) (id : JsValue).

Ltac text_ne := let E := fresh in intros E; vm_compute in E; discriminate E.

Lemma execute_duplicateCheck st (title company_handle : JsValue) :
  Store.execute Job.duplicateCheck_sql [title; company_handle] st
  = (inr {| rows := Store.only "title"
                      <$> filter (Store.same_job title company_handle) (Store.jobs st) |}, st).
Proof. unfold Store.execute. by rewrite decide_True. Qed.

Lemma execute_insert st (title salary equity company_handle : JsValue) :
  Store.execute Job.insert_sql [title; salary; equity; company_handle] st
  = (inr {| rows := [Store.new_job st title salary equity company_handle] |},
     {| Store.jobs := Store.jobs st
                      ++ [Store.new_job st title salary equity company_handle];
        Store.next_id := S (Store.next_id st) |}).
Proof.
  unfold Store.execute.
  rewrite decide_False by text_ne. by rewrite decide_True.
Qed.

Lemma execute_get st id :
  Store.execute Job.get_sql [id] st
  = (inr {| rows := filter (Store.has_id id) (Store.jobs st) |}, st).
Proof.
  unfold Store.execute.
  rewrite !decide_False by text_ne. by rewrite decide_True.
Qed.

Lemma execute_remove st id :
  Store.execute Job.remove_sql [id] st
  = (inr {| rows := Store.only "id" <$> filter (Store.has_id id) (Store.jobs st) |},
     {| Store.jobs := filter (λ r, ¬ Store.has_id id r) (Store.jobs st);
        Store.next_id := Store.next_id st |}).
Proof.
  unfold Store.execute.
  rewrite !decide_False by text_ne. by rewrite decide_True.
Qed.

Lemma run_query {S A} (h : Handler S) (text : string) (params : list JsValue)
    (k : QueryResult → Prog A) (s : S) :
  run h (db_query text params ≫= k) s
  = match h text params s with
    | (inl e, s') => (inl e, s')
    | (inr reply, s') => run h (k reply) s'
    end.
Proof. reflexivity. Qed.

Lemma sent_query {S A} (h : Handler S) (text : string) (params : list JsValue)
    (k : QueryResult → Prog A) (s : S) :
  sent h (db_query text params ≫= k) s
  = (text, params) ::
    match h text params s with
    | (inl e, s') => []
    | (inr reply, s') => sent h (k reply) s'
    end.
Proof. reflexivity. Qed.

Lemma received_query {S A} (h : Handler S) (text : string) (params : list JsValue)
    (k : QueryResult → Prog A) (s : S) :
  received h (db_query text params ≫= k) s
  = match h text params s with
    | (inl e, s') => []
    | (inr reply, s') => reply :: received h (k reply) s'
    end.
Proof. reflexivity. Qed.

Lemma filter_nil_iff {A} (P : A → Prop) `{∀ x, Decision (P x)} (l : list A) :
  filter P l = [] ↔ ∀ x, x ∈ l → ¬ P x.
Proof.
  split.
  - intros Hnil x Hx HP.
    assert (x ∈ filter P l) as Hin by (by apply list_elem_of_filter).
    rewrite Hnil in Hin. by apply elem_of_nil in Hin.
  - intros Hall. destruct (filter P l) as [|x l'] eqn:Hf; [done|].
    assert (x ∈ filter P l) as Hin by (rewrite Hf; left).
    apply list_elem_of_filter in Hin as [HP Hx]. by destruct (Hall x Hx).
Qed.

(** *** create *)



Lemma create_on_store st (data : Job.NewJob) :
  run Store.execute (Job.create data) st
  = match filter (Store.same_job (JStr (Job.title data)) (JStr (Job.company_handle data)))
            (Store.jobs st) with
    | _ :: _ =>
        (inl (BadRequestError ("Duplicate job: " +:+ Job.title data
                +:+ " already exists for company: " +:+ Job.company_handle data)), st)
    | [] =>
        let job := Store.new_job st (JStr (Job.title data)) (Job.salary data)
                     (Job.equity data) (JStr (Job.company_handle data)) in
        (inr (Job.equity_to_float job),
         {| Store.jobs := Store.jobs st ++ [job];
            Store.next_id := S (Store.next_id st) |})
    end.
Proof.
  unfold Job.create. rewrite run_query, execute_duplicateCheck. simpl.
  destruct (filter _ (Store.jobs st)) as [|r rs]; simpl; done.
Qed.


(** *** get and remove *)

Lemma get_on_store st id :
  run Store.execute (Job.get id) st
  = match filter (Store.has_id id) (Store.jobs st) with
    | [] => (inl (NotFoundError ("No job: " +:+ to_string id)), st)
    | job :: _ => (inr (Job.equity_to_float job), st)
    end.
Proof.
  unfold Job.get. rewrite run_query, execute_get. simpl.
  by destruct (filter _ (Store.jobs st)).
Qed.

Lemma filter_not_id {A} (P : A → Prop) `{∀ x, Decision (P x)} (l : list A) :
  filter P l = [] → filter (λ x, ¬ P x) l = l.
Proof.
  intros Hnil. induction l as [|x l IH]; [done|].
  rewrite filter_cons in Hnil. destruct (decide (P x)) as [HP|HP]; [done|].
  rewrite filter_cons_True by done. by rewrite IH.
Qed.

Lemma table_eta st :
  {| Store.jobs := Store.jobs st; Store.next_id := Store.next_id st |} = st.
Proof. by destruct st. Qed.

Lemma remove_on_store st id :
  run Store.execute (Job.remove id) st
  = match filter (Store.has_id id) (Store.jobs st) with
    | [] => (inl (NotFoundError ("No job: " +:+ to_string id)), st)
    | _ :: _ =>
        (inr (), {| Store.jobs := filter (λ r, ¬ Store.has_id id r) (Store.jobs st);
                    Store.next_id := Store.next_id st |})
    end.
Proof.
  unfold Job.remove. rewrite run_query, execute_remove. simpl.
  destruct (filter (Store.has_id id) (Store.jobs st)) as [|r rs] eqn:Hf; simpl; [|done].
  by rewrite filter_not_id, table_eta.
Qed.

(** *** update *)

Lemma field_mapper_update (key : string) : Sql.field_mapper Job.update_jsToSql key = key.
Proof.
  unfold Sql.field_mapper, js_or, prop, Job.update_jsToSql.
  destruct (decide (key = "title")) as [->|]; [done|].
  destruct (decide (key = "salary")) as [->|]; [done|].
  destruct (decide (key = "equity")) as [->|]; [done|].
  by simplify_map_eq.
Qed.

(** The statement [update] builds is an update the store reads. *)
Lemma update_program id (data : list (string * JsValue)) :
  data ≠ [] →
  Job.update id data
  = db_query (Store.update_text data.*1) (data.*2 ++ [id]) ≫= λ result,
      match rows result !! 0 with
      | None => Throw (NotFoundError ("No job: " +:+ to_string id))
      | Some job => Ret (Job.equity_to_float job)
      end.
Proof.
  intros Hne. unfold Job.update. rewrite SqlFacts.sqlForPartialUpdate_nonempty by done.
  unfold Store.update_text. rewrite !length_fmap.
  rewrite (imap_ext (Sql.column Job.update_jsToSql)
             (λ i c, dq +:+ c +:+ dq +:+ "=$" +:+ pretty (i + 1))); [done|].
  intros i key _. unfold Sql.column. by rewrite field_mapper_update.
Qed.

Lemma updatable_keys (data : list (string * JsValue)) :
  Job.updatable data →
  data.*1 ≠ [] ∧ NoDup data.*1 ∧ data.*1 ⊆ Store.job_columns ∧ length data.*1 ≤ 3.
Proof.
  intros (Hne & Hnd & Hsub). split_and!; [by destruct data|done| |].
  - intros k Hk. apply Hsub in Hk. unfold Job.updatable_fields in Hk.
    unfold Store.job_columns. rewrite !elem_of_cons in *. tauto.
  - apply (submseteq_length _ Job.updatable_fields). by apply NoDup_submseteq.
Qed.

(** For the key lists of an updatable object the text is none of the fixed
    statements, and the quoted names in it are the keys. *)
Lemma update_text_read (keys : list string) :
  keys ⊆ Job.updatable_fields → length keys ≤ 3 →
  Store.quoted (Store.update_text keys) = keys
  ∧ Store.update_text keys ≠ Job.duplicateCheck_sql
  ∧ Store.update_text keys ≠ Job.insert_sql
  ∧ Store.update_text keys ≠ Job.get_sql
  ∧ Store.update_text keys ≠ Job.remove_sql.
Proof.
  intros Hsub Hlen.
  assert (∀ k, k ∈ keys → k = "title" ∨ k = "salary" ∨ k = "equity") as Hin.
  { intros k Hk%Hsub. unfold Job.updatable_fields in Hk.
    rewrite !elem_of_cons, elem_of_nil in Hk. tauto. }
  destruct keys as [|a [|b [|c [|d keys]]]]; simpl in Hlen; [| | | |lia].
  - split_and!; [done|text_ne..].
  - destruct (Hin a) as [->|[->| ->]]; [by repeat constructor|..];
      (split_and!; [by vm_compute|text_ne..]).
  - destruct (Hin a) as [->|[->| ->]]; [by repeat constructor|..];
      (destruct (Hin b) as [->|[->| ->]]; [by repeat constructor|..]);
      (split_and!; [by vm_compute|text_ne..]).
  - destruct (Hin a) as [->|[->| ->]]; [by repeat constructor|..];
      (destruct (Hin b) as [->|[->| ->]]; [by repeat constructor|..]);
      (destruct (Hin c) as [->|[->| ->]]; [by repeat constructor|..]);
      (split_and!; [by vm_compute|text_ne..]).
Qed.

Lemma zip_longer {A B} (l : list A) (k extra : list B) :
  length l = length k → zip l (k ++ extra) = zip l k.
Proof.
  revert k. induction l as [|x l IH]; intros [|y k] Hlen; simpl in *; try done.
  f_equal. apply IH. lia.
Qed.

Lemma execute_update st (data : list (string * JsValue)) id :
  Job.updatable data →
  Store.execute (Store.update_text data.*1) (data.*2 ++ [id]) st
  = (inr {| rows := Store.assign data.*1 data.*2
                      <$> filter (Store.has_id id) (Store.jobs st) |},
     {| Store.jobs := (λ r, if decide (Store.has_id id r)
                            then Store.assign data.*1 data.*2 r else r)
                      <$> Store.jobs st;
        Store.next_id := Store.next_id st |}).
Proof.
  intros Hdata. pose proof Hdata as (_ & _ & Hfields).
  apply updatable_keys in Hdata as (Hne & Hnd & Hsub & Hlen).
  destruct (update_text_read data.*1) as (Hq & H1 & H2 & H3 & H4); [done..|].
  unfold Store.execute. rewrite !decide_False by done. rewrite Hq.
  rewrite decide_True.
  2:{ split_and!; try done. rewrite length_app, !length_fmap. simpl. lia. }
  rewrite last_snoc. simpl. unfold Store.assign.
  by rewrite zip_longer by (by rewrite !length_fmap).
Qed.

Lemma fmap_unmatched {A} (P : A → Prop) `{∀ x, Decision (P x)} (f : A → A) (l : list A) :
  filter P l = [] → (λ x, if decide (P x) then f x else x) <$> l = l.
Proof.
  intros Hnil. induction l as [|x l IH]; [done|].
  rewrite filter_cons in Hnil. destruct (decide (P x)) as [HP|HP]; [done|].
  rewrite fmap_cons, decide_False by done. by rewrite IH.
Qed.

Lemma update_on_store st id (data : list (string * JsValue)) :
  Job.updatable data →
  run Store.execute (Job.update id data) st
  = match filter (Store.has_id id) (Store.jobs st) with
    | [] => (inl (NotFoundError ("No job: " +:+ to_string id)), st)
    | job :: _ =>
        (inr (Job.equity_to_float (Store.assign data.*1 data.*2 job)),
         {| Store.jobs := (λ r, if decide (Store.has_id id r)
                                then Store.assign data.*1 data.*2 r else r)
                          <$> Store.jobs st;
            Store.next_id := Store.next_id st |})
    end.
Proof.
  intros Hdata. rewrite update_program by apply Hdata.
  rewrite run_query, execute_update by done.
  destruct (filter (Store.has_id id) (Store.jobs st)) as [|r rs] eqn:Hf; simpl; [|done].
  by rewrite fmap_unmatched, table_eta.
Qed.


Lemma update_no_data {S} (h : Handler S) (s : S) id :
  run h (Job.update id []) s = (inl (BadRequestError "No data"), s)
  ∧ sent h (Job.update id []) s = [].
Proof. done. Qed.


End facts.
End StoreFacts.

(** ** Equity on the read paths *)

Module EquityFacts.
Section facts.
Context `{JsNumber}.




(** The earlier copy hands the row back as the store gave it. *)
Lemma variant_get_raw {S} (h : Handler S) (s s' : S) (id : JsValue)
    (job : gmap string JsValue) :
  run h (JobVariant.get id) s = (inr job, s') →
  ∃ reply, last (received h (JobVariant.get id) s) = Some reply
    ∧ rows reply !! 0 = Some job.
Proof.
  unfold JobVariant.get. rewrite StoreFacts.run_query, StoreFacts.received_query.
  destruct (h _ _ s) as [[e|reply] s1]; [done|].
  destruct (rows reply !! 0) as [raw|] eqn:Hraw; simpl; [|done].
  intros [= <- _]. exists reply. by rewrite Hraw.
Qed.

End facts.
End EquityFacts.

(** ** The range check of the company list *)

Module CompanyFacts.
Section facts.
Context `{JsNumber}.

(** C9. When both employee bounds are supplied and the minimum exceeds the
    maximum, the company list operation is the bad-request error itself:
    whatever the query construction and whatever the store, no statement is
    built or sent and the store is left untouched. *)
Theorem C9_range_check {A} (list_companies : Company.Filters → Prog A)
    (f : Company.Filters) (lo hi : Z) :
  Company.minEmployees f = Some lo → Company.maxEmployees f = Some hi → (lo > hi)%Z →
  let error := BadRequestError "minEmployees cannot be greater than maxEmployees." in
  Company.findAll list_companies f = Throw error
  ∧ ∀ S (h : Handler S) (s : S),
      run h (Company.findAll list_companies f) s = (inl error, s)
      ∧ sent h (Company.findAll list_companies f) s = [].
Proof.
  intros Hlo Hhi Hgt error.
  assert (Company.findAll list_companies f = Throw error) as ->.
  { unfold Company.findAll. rewrite Hlo, Hhi. by rewrite decide_True. }
  done.
Qed.

End facts.
End CompanyFacts.

(** ** The middleware *)

Module AuthFacts.
Section facts.
Context `{JsNumber}.

Implicit Types (verify : string → option (gmap string JsValue))
  (headers : option (gmap string JsValue)) (locals : Auth.Locals).

Lemma cons_app (c : Ascii.ascii) (s t : string) : String c s +:+ t = String c (s +:+ t).
Proof. done. Qed.

Lemma trim_start_blank (ws s : string) :
  RouteTerms.blank ws = true → Auth.trim_start (ws +:+ s) = Auth.trim_start s.
Proof.
  induction ws as [|c ws IH]; [done|]. simpl. intros [Hc Hws]%andb_prop.
  rewrite ?cons_app. simpl. rewrite Hc. auto.
Qed.

Lemma trim_end_blank (ws : string) : RouteTerms.blank ws = true → Auth.trim_end ws = "".
Proof.
  induction ws as [|c ws IH]; [done|]. simpl. intros [Hc Hws]%andb_prop.
  by rewrite IH, Hc.
Qed.

Lemma trim_end_app (s ws : string) :
  RouteTerms.blank ws = true → Auth.trim_end (s +:+ ws) = Auth.trim_end s.
Proof.
  intros Hws. induction s as [|c s IH].
  - by apply trim_end_blank.
  - rewrite ?cons_app. simpl. by rewrite IH.
Qed.

Lemma trim_start_length (s : string) :
  String.length (Auth.trim_start s) ≤ String.length s.
Proof.
  induction s as [|c s IH]; [done|]. simpl.
  destruct (Auth.is_space c); simpl; lia.
Qed.

Lemma trim_end_length (s : string) :
  String.length (Auth.trim_end s) ≤ String.length s.
Proof.
  induction s as [|c s IH]; [done|]. simpl.
  destruct (Auth.trim_end s); [destruct (Auth.is_space c)|]; simpl in *; lia.
Qed.

(** A string [trim] leaves as it is has no white space at either end. *)
Lemma trim_fixed (s : string) :
  Auth.trim s = s → Auth.trim_start s = s ∧ Auth.trim_end s = s.
Proof.
  unfold Auth.trim. intros Hs.
  assert (Auth.trim_start s = s) as Hstart.
  { destruct s as [|c s]; [done|]. simpl in *.
    destruct (Auth.is_space c); [|done].
    apply (f_equal String.length) in Hs. simpl in Hs.
    pose proof (trim_end_length (Auth.trim_start s)).
    pose proof (trim_start_length s). lia. }
  by rewrite Hstart in Hs.
Qed.

Lemma trim_padded (before token after : string) :
  RouteTerms.blank before = true → RouteTerms.blank after = true → Auth.trim token = token →
  Auth.trim (before +:+ token +:+ after) = token.
Proof.
  intros Hb Ha [Hstart Hend]%trim_fixed. unfold Auth.trim.
  rewrite trim_start_blank by done.
  destruct token as [|c token].
  - simpl. rewrite trim_end_blank; [done|].
    clear -Ha. induction after as [|c ws IH]; [done|]. simpl in *.
    apply andb_prop in Ha as [Hc Hws]. rewrite Hc. auto.
  - assert (Auth.is_space c = false) as Hc.
    { destruct (Auth.is_space c) eqn:Hc; [|done].
      apply (f_equal String.length) in Hstart. simpl in Hstart. rewrite Hc in Hstart.
      pose proof (trim_start_length token). simpl in *. lia. }
    replace (Auth.trim_start (String c token +:+ after)) with (String c token +:+ after)
      by (simpl; by rewrite Hc).
    by rewrite trim_end_app.
Qed.

Lemma strip_Bearer (s : string) : Auth.strip_bearer ("Bearer " +:+ s) = s.
Proof. by destruct s. Qed.

Lemma strip_bearer_lower (s : string) : Auth.strip_bearer ("bearer " +:+ s) = s.
Proof. by destruct s. Qed.


(** X1. [authenticateJWT] lets every request through: it never hands an error
    to [next].  It either leaves [res.locals] as it was or stores the
    payload of the token it verified, the token being the header without
    its [Bearer ] prefix and the white space around it. *)
Theorem authenticateJWT_never_rejects verify headers locals :
  (Auth.authenticateJWT verify headers locals).2 = None
  ∧ ((Auth.authenticateJWT verify headers locals).1 = locals
     ∨ ∃ header payload,
         Auth.authorization headers = JStr header ∧ header ≠ ""
         ∧ verify (Auth.trim (Auth.strip_bearer header)) = Some payload
         ∧ (Auth.authenticateJWT verify headers locals).1 = {| Auth.user := Some payload |}).
Proof.
  unfold Auth.authenticateJWT.
  destruct (Auth.authorization headers) as [| |[]|x|header] eqn:Hh; simpl; auto.
  - destruct (number_truthy x); auto.
  - destruct header as [|c header]; [auto|].
    destruct (verify _) as [payload|] eqn:Hv; [|auto].
    split; [done|]. right. by exists (String c header), payload.
Qed.

Lemma authenticateJWT_header verify others locals (header : string) :
  header ≠ "" →
  Auth.authenticateJWT verify (RouteTerms.with_authorization header others) locals
  = match verify (Auth.trim (Auth.strip_bearer header)) with
    | Some payload => ({| Auth.user := Some payload |}, None)
    | None => (locals, None)
    end.
Proof.
  intros Hne. unfold Auth.authenticateJWT, RouteTerms.with_authorization, Auth.authorization, prop.
  rewrite lookup_insert_eq. simpl. by destruct header.
Qed.

(** X2. The [Bearer ] prefix is optional and its first letter may be in
    either case; white space around the token is dropped.  For a token
    without white space at its ends, each of these headers has that very
    token verified, and the request gets the payload [jwt.verify] gives
    for it. *)
Theorem token_of_header verify others locals (before token after header : string) :
  Auth.trim token = token → RouteTerms.blank before = true → RouteTerms.blank after = true →
  header = "Bearer " +:+ before +:+ token +:+ after
  ∨ header = "bearer " +:+ before +:+ token +:+ after
  ∨ (header = before +:+ token +:+ after ∧ token ≠ ""
     ∧ Auth.strip_bearer header = header) →
  Auth.trim (Auth.strip_bearer header) = token
  ∧ Auth.authenticateJWT verify (RouteTerms.with_authorization header others) locals
    = match verify token with
      | Some payload => ({| Auth.user := Some payload |}, None)
      | None => (locals, None)
      end.
Proof.
  intros Ht Hb Ha Hheader.
  assert (Auth.trim (Auth.strip_bearer header) = token) as Htoken.
  { destruct Hheader as [->|[->|(-> & _ & ->)]].
    - rewrite strip_Bearer. by apply trim_padded.
    - rewrite strip_bearer_lower. by apply trim_padded.
    - by apply trim_padded. }
  split; [done|]. rewrite authenticateJWT_header, Htoken; [done|].
  destruct Hheader as [->|[->|(-> & Hne & _)]]; [done..|].
  intros Hempty. apply Hne.
  destruct before; [|done]. by destruct token.
Qed.

(** X3. The guards are ordered by strictness: what [ensureAdmin] lets through
    is let through by [ensureCorrectUserOrAdmin] for every user name, and
    what that one lets through is let through by [ensureLoggedIn]. *)
Theorem guards_by_strictness locals (username : string) :
  (Auth.ensureAdmin locals = None → Auth.ensureCorrectUserOrAdmin username locals = None)
  ∧ (Auth.ensureCorrectUserOrAdmin username locals = None → Auth.ensureLoggedIn locals = None).
Proof.
  unfold Auth.ensureAdmin, Auth.ensureCorrectUserOrAdmin, Auth.ensureLoggedIn.
  destruct (Auth.user locals) as [user|]; [|done].
  split; [|done]. by destruct (truthy (prop user "isAdmin")).
Qed.

(** X4. On a request no one has logged into, the guards pass exactly when
    the request carries a token that verifies: [ensureLoggedIn] for any
    payload, [ensureAdmin] when the payload has a truthy [isAdmin],
    [ensureCorrectUserOrAdmin] when it has that or the user name of the
    route. *)
Theorem guards_after_authenticateJWT verify headers (username : string) :
  let locals := (Auth.authenticateJWT verify headers Auth.no_user).1 in
  let verified (P : gmap string JsValue → Prop) :=
    ∃ header payload, Auth.authorization headers = JStr header ∧ header ≠ ""
      ∧ verify (Auth.trim (Auth.strip_bearer header)) = Some payload ∧ P payload in
  (Auth.ensureLoggedIn locals = None ↔ verified (λ _, True))
  ∧ (Auth.ensureAdmin locals = None ↔ verified (λ payload, truthy (prop payload "isAdmin") = true))
  ∧ (Auth.ensureCorrectUserOrAdmin username locals = None
     ↔ verified (λ payload, truthy (prop payload "isAdmin") = true
                           ∨ prop payload "username" = JStr username)).
Proof.
  intros locals verified.
  assert (∀ P, verified P ↔ ∃ payload, Auth.user locals = Some payload ∧ P payload) as Hv.
  { intros P. subst locals verified. unfold Auth.authenticateJWT. simpl.
    destruct (Auth.authorization headers) as [| |[]|x|header] eqn:Hh; simpl;
      try (split; [by intros (? & ? & ? & _)|by intros (? & ? & _)]).
    - destruct (number_truthy x); (split; [by intros (? & ? & ? & _)|by intros (? & ? & _)]).
    - destruct header as [|c header]; simpl.
      { split; [by intros (? & ? & [= <-] & ? & _)|by intros (? & ? & _)]. }
      split.
      + intros (? & payload & [= <-] & _ & -> & HP). by exists payload.
      + destruct (verify _) as [payload|] eqn:Hp; simpl; intros (p & [= <-] & HP).
        by exists (String c header), payload. }
  rewrite !Hv. unfold Auth.ensureLoggedIn, Auth.ensureAdmin, Auth.ensureCorrectUserOrAdmin.
  destruct (Auth.user locals) as [payload|].
  - split_and!.
    + split; [by exists payload|done].
    + destruct (truthy (prop payload "isAdmin")) eqn:Ha.
      * split; [by exists payload|done].
      * split; [done|]. intros (? & [= <-] & ?). congruence.
    + destruct (truthy (prop payload "isAdmin")) eqn:Ha; simpl.
      * split; [exists payload; auto|done].
      * case_bool_decide as Hu.
        -- split; [exists payload; auto|done].
        -- split; [done|]. intros (? & [= <-] & [?|?]); congruence.
  - split_and!; (split; [done|by intros (? & ? & _)]).
Qed.

End facts.
End AuthFacts.

(** ** The routes *)

Module RouteFacts.
Section facts.
Context `{JsNumber}.
Variable jobNewSchema : Job.NewJob → list string.
Variable jobUpdateSchema : list (string * JsValue) → list string.
Variable parseInt : JsValue → number.


Implicit Types (locals : Auth.Locals) (id : string) (body : Job.NewJob)
  (data : list (string * JsValue)) (query : gmap string JsValue).

Lemma admin_only_refused locals (handler : Prog Routes.Reply) :
  Auth.ensureAdmin locals ≠ None →
  Routes.admin_only locals handler = Ret (Routes.Next Auth.UnauthorizedError).
Proof.
  unfold Routes.admin_only, Auth.guards, Auth.ensureAdmin, Auth.ensureLoggedIn.
  destruct (Auth.user locals) as [user|]; [|done].
  by destruct (truthy (prop user "isAdmin")).
Qed.

Lemma admin_only_passed locals (handler : Prog Routes.Reply) :
  Auth.ensureAdmin locals = None → Routes.admin_only locals handler = handler.
Proof.
  unfold Routes.admin_only, Auth.guards, Auth.ensureAdmin, Auth.ensureLoggedIn.
  destruct (Auth.user locals) as [user|]; [|done].
  by destruct (truthy (prop user "isAdmin")).
Qed.

(** X5. Without an admin, the three writing routes answer with the
    [UnauthorizedError] and do nothing else: whatever the body and the id,
    no statement reaches the store and its state stays as it was. *)
Theorem writes_need_admin {S} (h : Handler S) (st : S) locals body id data
    (route : Prog Routes.Reply) :
  Auth.ensureAdmin locals ≠ None →
  route ∈ [Routes.post_job jobNewSchema locals body; Routes.patch_job jobUpdateSchema locals id data; Routes.delete_job locals id] →
  Routes.answer h Routes.to_next route st = (Routes.Next Auth.UnauthorizedError, st)
  ∧ sent h route st = [].
Proof.
  intros Hadmin Hroute.
  assert (route = Ret (Routes.Next Auth.UnauthorizedError)) as ->; [|done].
  rewrite !elem_of_cons, elem_of_nil in Hroute.
  destruct Hroute as [->|[->|[->|[]]]]; by apply admin_only_refused.
Qed.

(** X6. A body the schema rejects never reaches the model: [POST /] and
    [PATCH /:id] hand the validation messages to [next] without sending a
    statement. *)
Theorem invalid_body_not_stored {S} (h : Handler S) (st : S) locals body id data :
  Auth.ensureAdmin locals = None →
  (jobNewSchema body ≠ [] →
     Routes.answer h Routes.to_next (Routes.post_job jobNewSchema locals body) st
     = (Routes.Next (Auth.InvalidBody (jobNewSchema body)), st)
     ∧ sent h (Routes.post_job jobNewSchema locals body) st = [])
  ∧ (jobUpdateSchema data ≠ [] →
     Routes.answer h Routes.to_next (Routes.patch_job jobUpdateSchema locals id data) st
     = (Routes.Next (Auth.InvalidBody (jobUpdateSchema data)), st)
     ∧ sent h (Routes.patch_job jobUpdateSchema locals id data) st = []).
Proof.
  intros Hadmin. unfold Routes.post_job, Routes.patch_job.
  rewrite !admin_only_passed by done.
  split; intros Hinvalid.
  - by destruct (jobNewSchema body).
  - by destruct (jobUpdateSchema data).
Qed.

(** X7. [PATCH /:id] with an empty object that the schema accepts sends
    nothing: the [BadRequestError] of [sqlForPartialUpdate] goes to [next]. *)
Theorem patch_without_data {S} (h : Handler S) (st : S) locals id :
  Auth.ensureAdmin locals = None → jobUpdateSchema [] = [] →
  Routes.answer h Routes.to_next (Routes.patch_job jobUpdateSchema locals id []) st
  = (Routes.Next (Auth.Thrown (BadRequestError "No data")), st)
  ∧ sent h (Routes.patch_job jobUpdateSchema locals id []) st = [].
Proof.
  intros Hadmin Hvalid. unfold Routes.patch_job.
  rewrite admin_only_passed, Hvalid by done. done.
Qed.


(** The conditions and the values [Job.findAll] makes of the filters of
    [GET /]. *)
Lemma filters_where query :
  let title := prop query "title" in
  let minSalary := prop query "minSalary" in
  let hasEquity := prop query "hasEquity" in
  Job.findAll_where (Routes.filters parseInt query)
  = ((if truthy title then ["title ILIKE $1"] else [])
     ++ (if decide (minSalary ≠ JUndefined)
         then [if truthy title then "salary >= $2" else "salary >= $1"] else [])
     ++ (if decide (hasEquity = JStr "true") then ["equity > 0"] else []),
     (if truthy title then [JStr ("%" +:+ to_string title +:+ "%")] else [])
     ++ (if decide (minSalary ≠ JUndefined) then [JNum (parseInt minSalary)] else [])).
Proof.
  intros title minSalary hasEquity. unfold Job.findAll_where, Routes.filters. simpl.
  fold title minSalary hasEquity.
  destruct (truthy title) eqn:Ht; rewrite ?Ht; simpl;
    destruct (decide (minSalary ≠ JUndefined)); simpl;
    destruct (decide (hasEquity = JStr "true")); simpl; reflexivity.
Qed.

(** X8. [GET /] never filters by company: whatever the query string holds,
    [companyHandle] included, the statement has at most the title, salary
    and equity conditions and binds at most two values. *)
Theorem list_never_by_company query (companyHandle : JsValue) :
  Routes.get_jobs parseInt (<["companyHandle" := companyHandle]> query)
  = Routes.get_jobs parseInt query
  ∧ (Job.findAll_where (Routes.filters parseInt query)).1
    ⊆ ["title ILIKE $1"; "salary >= $1"; "salary >= $2"; "equity > 0"]
  ∧ length (Job.findAll_where (Routes.filters parseInt query)).2 ≤ 2.
Proof.
  split_and!.
  - unfold Routes.get_jobs, Routes.filters, prop. by rewrite !lookup_insert_ne.
  - rewrite filters_where. simpl. intros fragment.
    rewrite !elem_of_app, !elem_of_cons.
    destruct (truthy _), (decide (_ ≠ _)), (decide (_ = _));
      rewrite ?elem_of_cons, ?elem_of_nil; tauto.
  - rewrite filters_where. simpl.
    destruct (truthy _), (decide (_ ≠ _)); simpl; lia.
Qed.

(** X9. The equity condition of [GET /] is asked for by the text [true]
    and by nothing else: any other value of [hasEquity] is as good as
    none. *)
Theorem list_equity_only_true query :
  ("equity > 0" ∈ (Job.findAll_where (Routes.filters parseInt query)).1
   ↔ prop query "hasEquity" = JStr "true")
  ∧ ∀ hasEquity : JsValue, hasEquity ≠ JStr "true" →
      Routes.get_jobs parseInt (<["hasEquity" := hasEquity]> query)
      = Routes.get_jobs parseInt (delete "hasEquity" query).
Proof.
  split.
  - rewrite filters_where. simpl. rewrite !elem_of_app.
    destruct (truthy _), (decide (_ ≠ _)), (decide (_ = _)) as [He|He];
      rewrite ?elem_of_cons, ?elem_of_nil; intuition discriminate.
  - intros hasEquity Hv. unfold Routes.get_jobs, Routes.filters, prop.
    rewrite lookup_insert_eq, lookup_delete_eq, !lookup_insert_ne, !lookup_delete_ne by done.
    simpl. by destruct (decide (hasEquity = _)).
Qed.

(** X10. A [minSalary] in the query string always gives a salary condition,
    bound to what [parseInt] makes of it, an empty text included; every
    value [GET /] binds is that number or the title pattern. *)
Theorem list_salary_parsed query :
  let minSalary := prop query "minSalary" in
  let where_ := Job.findAll_where (Routes.filters parseInt query) in
  (minSalary ≠ JUndefined ↔ JNum (parseInt minSalary) ∈ where_.2)
  ∧ (minSalary ≠ JUndefined ↔ "salary >= $1" ∈ where_.1 ∨ "salary >= $2" ∈ where_.1)
  ∧ ∀ v, v ∈ where_.2 →
      v = JNum (parseInt minSalary)
      ∨ v = JStr ("%" +:+ to_string (prop query "title") +:+ "%").
Proof.
  intros minSalary where_. subst where_. rewrite filters_where. simpl.
  fold minSalary. split_and!.
  - rewrite elem_of_app.
    destruct (truthy _), (decide (_ ≠ _)) as [Hm|Hm];
      rewrite ?elem_of_cons, ?elem_of_nil; intuition discriminate.
  - rewrite !elem_of_app.
    destruct (truthy _), (decide (minSalary ≠ JUndefined)) as [Hm|Hm],
      (decide (_ = JStr "true"));
      rewrite ?elem_of_cons, ?elem_of_nil; intuition discriminate.
  - intros v. rewrite elem_of_app.
    destruct (truthy _), (decide (_ ≠ _)) as [Hm|Hm];
      rewrite ?elem_of_cons, ?elem_of_nil; intuition discriminate.
Qed.

(** X11. Every criterion [GET /] puts in the filters counts: the statement
    has as many conditions as the filters have criteria. *)
Theorem list_filters_all_effective query :
  length (Job.findAll_where (Routes.filters parseInt query)).1
  = Terms.present (Routes.filters parseInt query)
  ∧ Terms.effective (Routes.filters parseInt query)
    = Terms.present (Routes.filters parseInt query).
Proof.
  assert (length (Job.findAll_where (Routes.filters parseInt query)).1
          = Terms.present (Routes.filters parseInt query)) as Hlen.
  { rewrite filters_where. unfold Terms.present, Routes.filters. simpl.
    destruct (prop query "title") as [| |[]|x|[|c title]] eqn:Ht; simpl;
      rewrite ?filter_cons_True, ?filter_cons_False by (try done; by intros []);
      destruct (decide (prop query "minSalary" ≠ JUndefined)); simpl;
      destruct (decide (prop query "hasEquity" = JStr "true")); simpl;
      try reflexivity.
    all: destruct (number_truthy x); simpl; reflexivity. }
  split; [done|]. rewrite <- Hlen.
  by rewrite FilterFacts.findAll_where_numbered, FilterFacts.numbered_length,
    FilterFacts.effective_filter.
Qed.


(** X12. [GET /] answers 200 with the list the store gave, its equity
    converted, and so with an empty list when nothing matches; only a
    failure of the store goes to [next]. *)
Theorem list_answers {S} (h : Handler S) (st : S) query :
  let statement := Job.findAll_query (Routes.filters parseInt query) in
  sent h (Routes.get_jobs parseInt query) st = [statement]
  ∧ Routes.answer h Routes.to_next (Routes.get_jobs parseInt query) st
    = match h statement.1 statement.2 st with
      | (inr reply, st') =>
          (Routes.Json 200 (Routes.JobsBody (Job.equity_to_float <$> rows reply)), st')
      | (inl err, st') => (Routes.Next (Auth.Thrown err), st')
      end.
Proof.
  intros statement. subst statement. unfold Routes.get_jobs, Routes.answer, Job.findAll.
  destruct (Job.findAll_query _) as [text params]. simpl.
  by destruct (h text params st) as [[err|reply] st'].
Qed.

(** X13. [GET /:id] sends one statement, with the id as the text of the
    path.  No row gives 404 with the message of the [NotFoundError] as the
    body, a row gives 200 with that job, and a [NotFoundError] is never
    handed to [next]. *)
Theorem show_answers {S} (h : Handler S) (st : S) id :
  let outcome := Routes.answer h Routes.not_found_or_next (Routes.get_job id) st in
  sent h (Routes.get_job id) st = [(Job.get_sql, [JStr id])]
  ∧ (∀ message, outcome.1 ≠ Routes.Next (Auth.Thrown (NotFoundError message)))
  ∧ (∀ reply st', h Job.get_sql [JStr id] st = (inr reply, st') →
       outcome = match rows reply with
                 | [] => (Routes.Json 404 (Routes.ErrorBody ("No job: " +:+ id)), st')
                 | job :: _ => (Routes.Json 200 (Routes.JobBody (Job.equity_to_float job)), st')
                 end).
Proof.
  intros outcome. subst outcome. unfold Routes.get_job, Routes.answer, Job.get. simpl.
  destruct (h Job.get_sql [JStr id] st) as [[err|reply] st'] eqn:Hh; simpl.
  - split_and!; [done| |done]. intros message. by destruct err.
  - destruct (rows reply) as [|job others] eqn:Hrows; simpl.
    + split_and!; [done..|]. intros ?? [= <- <-]. by rewrite Hrows.
    + split_and!; [done..|]. intros ?? [= <- <-]. by rewrite Hrows.
Qed.

(** X14. [DELETE /:id] by an admin sends one statement, with the id as
    the text of the path.  When the store returns a row the answer is 200
    and echoes that id; when it returns none the [NotFoundError] goes to
    [next], where [GET /:id] answers 404 itself. *)
Theorem delete_answers {S} (h : Handler S) (st st' : S) locals id (reply : QueryResult) :
  Auth.ensureAdmin locals = None →
  h Job.remove_sql [JStr id] st = (inr reply, st') →
  sent h (Routes.delete_job locals id) st = [(Job.remove_sql, [JStr id])]
  ∧ Routes.answer h Routes.to_next (Routes.delete_job locals id) st
    = match rows reply with
      | [] => (Routes.Next (Auth.Thrown (NotFoundError ("No job: " +:+ id))), st')
      | _ :: _ => (Routes.Json 200 (Routes.DeletedBody id), st')
      end.
Proof.
  intros Hadmin Hh. unfold Routes.delete_job. rewrite admin_only_passed by done.
  unfold Routes.answer, Job.remove. simpl. rewrite Hh.
  by destruct (rows reply).
Qed.



End facts.
End RouteFacts.

(** ** What the statements are made of, and the two copies of the model *)

Module ModelFacts.
Section facts.
Context `{JsNumber}.

Implicit Types (data : list (string * JsValue)) (jsToSql : gmap string JsValue)
  (f : Job.Filters.t) (id : JsValue).

(** The statement of [Job.update]: its text is made of the keys. *)
Lemma update_sent_keys {S} (h : Handler S) (s : S) id data :
  data ≠ [] →
  sent h (Job.update id data) s = [(Store.update_text data.*1, data.*2 ++ [id])].
Proof.
  intros Hne. rewrite StoreFacts.update_program, StoreFacts.sent_query by done.
  destruct (h _ _ s) as [[e|reply] s']; [done|].
  by destruct (rows reply !! 0).
Qed.

(** X15. The values of an update never enter the text of its statement:
    the fragment of [sqlForPartialUpdate] and the statement of
    [Job.update] are fixed by the keys, the values and the id going to
    the parameters only. *)
Theorem update_text_from_keys data data' jsToSql :
  data.*1 = data'.*1 →
  (∀ r r', Sql.sqlForPartialUpdate data jsToSql = inr r →
     Sql.sqlForPartialUpdate data' jsToSql = inr r' → Sql.setCols r = Sql.setCols r')
  ∧ ∀ S (h h' : Handler S) (s s' : S) id id',
      (sent h (Job.update id data) s).*1 = (sent h' (Job.update id' data') s').*1.
Proof.
  intros Hkeys.
  destruct (decide (data = [])) as [->|Hne].
  { symmetry in Hkeys. apply fmap_nil_inv in Hkeys as ->. split; [done|]. intros.
    by rewrite !(proj2 (StoreFacts.update_no_data _ _ _)). }
  assert (data' ≠ []) as Hne' by (intros ->; by destruct data).
  split.
  - intros r r'. rewrite !SqlFacts.sqlForPartialUpdate_nonempty by done.
    intros ?%(inj inr) ?%(inj inr). subst r r'. cbn [Sql.setCols]. by rewrite Hkeys.
  - intros S h h' s s' id id'. rewrite !update_sent_keys by done.
    cbn [fmap list_fmap fst]. by rewrite Hkeys.
Qed.

(** X16. Nor do the values of the filters enter the text of the list
    statement: two filters that pass the same [if]s give the same text and
    bind as many values. *)
Theorem findAll_text_from_guards f f' :
  truthy (Job.Filters.title f) = truthy (Job.Filters.title f') →
  (Job.Filters.minSalary f = JUndefined ↔ Job.Filters.minSalary f' = JUndefined) →
  (Job.Filters.hasEquity f = JBool true ↔ Job.Filters.hasEquity f' = JBool true) →
  truthy (Job.Filters.companyHandle f) = truthy (Job.Filters.companyHandle f') →
  (Job.findAll_query f).1 = (Job.findAll_query f').1
  ∧ length (Job.findAll_query f).2 = length (Job.findAll_query f').2.
Proof.
  intros Ht Hm He Hc. unfold Job.findAll_query, Job.findAll_where.
  rewrite <- Ht, <- Hc.
  destruct (truthy (Job.Filters.title f)), (truthy (Job.Filters.companyHandle f));
    destruct (decide (Job.Filters.minSalary f ≠ JUndefined)),
             (decide (Job.Filters.minSalary f' ≠ JUndefined)); try tauto;
    destruct (decide (Job.Filters.hasEquity f = JBool true)),
             (decide (Job.Filters.hasEquity f' = JBool true)); try tauto;
    done.
Qed.

(** X17. In the list statement every condition but the equity one binds
    exactly one value, so each placeholder has its parameter. *)
Theorem findAll_values_match_conditions f :
  length (Job.findAll_where f).2
  = length (filter (λ condition, condition ≠ "equity > 0") (Job.findAll_where f).1)
  ∧ length (Job.findAll_where f).2 ≤ length (Job.findAll_where f).1 ≤ 4.
Proof.
  unfold Job.findAll_where.
  destruct (truthy (Job.Filters.title f)), (truthy (Job.Filters.companyHandle f)),
    (decide (Job.Filters.minSalary f ≠ JUndefined)),
    (decide (Job.Filters.hasEquity f = JBool true)); simpl;
    (split; [vm_compute; reflexivity|lia]).
Qed.


(** X18. The two copies of the model differ by the equity conversion and
    by nothing else: on any store they send the same statements, and what
    [models/job.js] returns is what the earlier copy returns with
    [equity_to_float] applied to each job. *)
Theorem variant_same_but_equity {S} (h : Handler S) (s : S) :
  (∀ key, sent h (Job.get key) s = sent h (JobVariant.get key) s
     ∧ run h (Job.get key) s
       = prod_map (sum_map id Job.equity_to_float) id (run h (JobVariant.get key) s))
  ∧ (∀ key data, sent h (Job.update key data) s = sent h (JobVariant.update key data) s
     ∧ run h (Job.update key data) s
       = prod_map (sum_map id Job.equity_to_float) id (run h (JobVariant.update key data) s))
  ∧ (∀ f, sent h (Job.findAll f) s = sent h (JobVariant.findAll f) s
     ∧ run h (Job.findAll f) s
       = prod_map (sum_map id (fmap Job.equity_to_float)) id (run h (JobVariant.findAll f) s))
  ∧ (∀ data : Job.NewJob,
     sent h (Job.create data) s = sent h (JobVariant.create data) s
     ∧ run h (Job.create data) s
       = match run h (JobVariant.create data) s with
         | (inr (Some job), s') => (inr (Job.equity_to_float job), s')
         | (inr None, s') => (inl Job.undefined_equity, s')
         | (inl e, s') => (inl e, s')
         end).
Proof.
  split_and!.
  - intros key. unfold Job.get, JobVariant.get.
    rewrite !StoreFacts.sent_query, !StoreFacts.run_query.
    destruct (h _ _ s) as [[e|reply] s']; [done|].
    by destruct (rows reply !! 0).
  - intros key data. unfold Job.update, JobVariant.update.
    destruct (Sql.sqlForPartialUpdate data Job.update_jsToSql) as [e|[setCols values]];
      [done|].
    rewrite !StoreFacts.sent_query, !StoreFacts.run_query.
    destruct (h _ _ s) as [[e|reply] s']; [done|].
    by destruct (rows reply !! 0).
  - intros f. unfold Job.findAll, JobVariant.findAll.
    destruct (Job.findAll_query f) as [text params].
    rewrite !StoreFacts.sent_query, !StoreFacts.run_query.
    by destruct (h _ _ s) as [[e|reply] s'].
  - intros data. unfold Job.create, JobVariant.create.
    rewrite !StoreFacts.sent_query, !StoreFacts.run_query.
    destruct (h _ _ s) as [[e|check] s1]; [done|].
    destruct (rows check !! 0); [done|].
    rewrite !StoreFacts.sent_query, !StoreFacts.run_query.
    destruct (h _ _ s1) as [[e|reply] s2]; [done|].
    by destruct (rows reply !! 0).
Qed.

End facts.
End ModelFacts.

(** ** The life of a job in the store *)

Module LifeFacts.
Section facts.
Context `{JsNumber}.

Implicit Types (st : Store.Table) (key : JsValue) (data : list (string * JsValue))
  (r job : gmap string JsValue).

Lemma filter_has_id_removed key (l : list (gmap string JsValue)) :
  filter (Store.has_id key) (filter (λ r, ¬ Store.has_id key r) l) = [].
Proof.
  apply StoreFacts.filter_nil_iff. intros r [Hr _]%list_elem_of_filter. done.
Qed.

(** X19. A job that was removed is gone: on the table a successful
    [remove] leaves, [get], [remove] and [update] of that id all throw the
    [NotFoundError], and the other jobs are all still there. *)
Theorem removed_job_is_gone st st' key data :
  run Store.execute (Job.remove key) st = (inr (), st') →
  let not_found := NotFoundError ("No job: " +:+ to_string key) in
  run Store.execute (Job.get key) st' = (inl not_found, st')
  ∧ run Store.execute (Job.remove key) st' = (inl not_found, st')
  ∧ (Job.updatable data → run Store.execute (Job.update key data) st' = (inl not_found, st'))
  ∧ (∀ r, r ∈ Store.jobs st' ↔ r ∈ Store.jobs st ∧ ¬ Store.has_id key r)
  ∧ length (Store.jobs st') < length (Store.jobs st).
Proof.
  rewrite StoreFacts.remove_on_store.
  destruct (filter (Store.has_id key) (Store.jobs st)) as [|found others] eqn:Hfound;
    [done|].
  intros [= <-] not_found.
  split_and!.
  - rewrite StoreFacts.get_on_store. simpl. by rewrite filter_has_id_removed.
  - rewrite StoreFacts.remove_on_store. simpl. by rewrite filter_has_id_removed.
  - intros Hdata. rewrite StoreFacts.update_on_store by done. simpl.
    by rewrite filter_has_id_removed.
  - intros r. simpl. rewrite list_elem_of_filter. tauto.
  - simpl.
    assert (found ∈ filter (Store.has_id key) (Store.jobs st)) as Hin
      by (rewrite Hfound; left).
    apply list_elem_of_filter in Hin as [Hid Hin].
    apply (length_filter_lt _ _ found); tauto.
Qed.

Lemma prop_equity_to_float job (k : string) :
  k ≠ "equity" → prop (Job.equity_to_float job) k = prop job k.
Proof.
  intros Hk. unfold Job.equity_to_float, prop.
  destruct (decide _); [|done]. by rewrite lookup_insert_ne.
Qed.

(** X20. A job that was created can be read back: when the key the store
    gave it is not the key of an older row, [get] of the id of the record
    [create] returned returns that same record, which has the title and
    the company of the data. *)
Theorem created_job_can_be_read st st' (data : Job.NewJob) job :
  run Store.execute (Job.create data) st = (inr job, st') →
  (∀ r, r ∈ Store.jobs st → ¬ Store.has_id (prop job "id") r) →
  run Store.execute (Job.get (prop job "id")) st' = (inr job, st')
  ∧ prop job "title" = JStr (Job.title data)
  ∧ prop job "company_handle" = JStr (Job.company_handle data).
Proof.
  rewrite StoreFacts.create_on_store.
  destruct (filter _ (Store.jobs st)) as [|duplicate others]; [|done].
  intros [= <- <-] Hfresh.
  set (row := Store.new_job st _ _ _ _) in *.
  assert (prop (Job.equity_to_float row) "id" = JNum (number_of_nat (Store.next_id st)))
    as Hid by (by rewrite prop_equity_to_float).
  rewrite Hid in *. split_and!.
  - rewrite StoreFacts.get_on_store. simpl. rewrite filter_app.
    rewrite (proj2 (StoreFacts.filter_nil_iff _ _) Hfresh). simpl.
    rewrite filter_cons_True; [done|]. by split_and!.
  - by rewrite prop_equity_to_float.
  - by rewrite prop_equity_to_float.
Qed.

Lemma assign_cons (c : string) (v : JsValue) cols vals r :
  Store.assign (c :: cols) (v :: vals) r = Store.assign cols vals (<[c := Store.bound v]> r).
Proof. done. Qed.

(** A column that is not assigned keeps its value. *)
Lemma assign_other (cols : list string) (vals : list JsValue) r (k : string) :
  k ∉ cols → Store.assign cols vals r !! k = r !! k.
Proof.
  revert vals r. induction cols as [|c cols IH]; intros [|v vals] r Hk; try done.
  rewrite assign_cons, IH by set_solver. apply lookup_insert_ne. set_solver.
Qed.

(** A column that is assigned once has the value bound to it. *)
Lemma assign_entry data r (k : string) (v : JsValue) :
  NoDup data.*1 → (k, v) ∈ data →
  prop (Store.assign data.*1 data.*2 r) k = Store.bound v.
Proof.
  revert r. induction data as [|[c w] data IH]; intros r Hnodup Hin.
  { by apply elem_of_nil in Hin. }
  rewrite !fmap_cons in *. simpl in *. apply NoDup_cons in Hnodup as [Hc Hnodup].
  rewrite assign_cons. apply elem_of_cons in Hin as [[= -> ->]|Hin].
  - unfold prop. by rewrite assign_other, lookup_insert_eq.
  - by apply IH.
Qed.

Lemma updatable_keeps_id data r key :
  Job.updatable data →
  Store.has_id key (Store.assign data.*1 data.*2 r) ↔ Store.has_id key r.
Proof.
  intros (_ & _ & Hsub). unfold Store.has_id, prop. rewrite assign_other; [done|].
  intros Hin%Hsub. unfold Job.updatable_fields in Hin.
  rewrite !elem_of_cons, elem_of_nil in Hin. by destruct Hin as [?|[?|[?|[]]]].
Qed.

Lemma filter_updated data key (l : list (gmap string JsValue)) :
  Job.updatable data →
  filter (Store.has_id key)
    ((λ r, if decide (Store.has_id key r) then Store.assign data.*1 data.*2 r else r) <$> l)
  = Store.assign data.*1 data.*2 <$> filter (Store.has_id key) l.
Proof.
  intros Hdata. induction l as [|r l IH]; [done|].
  rewrite fmap_cons. destruct (decide (Store.has_id key r)) as [Hr|Hr].
  - rewrite !filter_cons_True, fmap_cons, IH; [done..|].
    by apply updatable_keeps_id.
  - by rewrite !filter_cons_False, IH.
Qed.

(** X21. An update can be read back: after a successful [update] of an id
    with documented data, [get] of that id returns the record [update]
    returned, which has the new value of every field of the data but
    [equity], converted as usual, and still has its id. *)
Theorem updated_job_can_be_read st st' key data job :
  Job.updatable data →
  run Store.execute (Job.update key data) st = (inr job, st') →
  run Store.execute (Job.get key) st' = (inr job, st')
  ∧ (∀ k v, (k, v) ∈ data → k ≠ "equity" → prop job k = Store.bound v)
  ∧ Store.has_id key job
  ∧ length (Store.jobs st') = length (Store.jobs st).
Proof.
  intros Hdata. rewrite StoreFacts.update_on_store by done.
  destruct (filter (Store.has_id key) (Store.jobs st)) as [|found others] eqn:Hfound;
    [done|].
  intros [= <- <-]. split_and!.
  - rewrite StoreFacts.get_on_store. simpl. by rewrite filter_updated, Hfound.
  - intros k v Hin Hk. rewrite prop_equity_to_float by done.
    apply assign_entry; [|done]. apply Hdata.
  - assert (found ∈ filter (Store.has_id key) (Store.jobs st)) as Hin
      by (rewrite Hfound; left).
    apply list_elem_of_filter in Hin as [Hid _].
    unfold Store.has_id. rewrite prop_equity_to_float by done.
    by apply updatable_keeps_id.
  - simpl. by rewrite length_fmap.
Qed.

End facts.
End LifeFacts.

(** ** The theorems on the values of the tests *)

Module Examples.

#[local] Existing Instance Decimal.decimal.
#[local] Existing Instance Decimal.decimal_number.

Import Sample.

Ltac evaluated := apply (bool_decide_unpack _); vm_compute; exact I.


(** The test "throws BadRequestError if no data provided", and its
    converse on the first example. *)
Lemma C2_witness :
  Sql.sqlForPartialUpdate [] first_name = inl (BadRequestError "No data")
  ∧ ∃ r, Sql.sqlForPartialUpdate john first_name = inr r.
Proof.
  split.
  - by apply (SqlFacts.C2_error_iff_empty [] first_name).
  - by apply (SqlFacts.C2_error_iff_empty john first_name).
Defined.

(** Four criteria, four fragments; with [{ hasEquity: false }] none. *)
Lemma C3_witness :
  length (Job.findAll_where full).1 = 4
  ∧ length (Job.findAll_where no_equity).1 = 0
  ∧ Job.findAll_query Job.no_filters = (Job.select_sql +:+ " ORDER BY title", []).
Proof.
  destruct (FilterFacts.C3_fragment_count full) as (Hfull & _ & _ & _ & Hnone & _).
  destruct (FilterFacts.C3_fragment_count no_equity) as (Hequity & _).
  rewrite Hfull, Hequity. split_and!; [evaluated|evaluated|exact Hnone].
Defined.

(** The statement of a call with all four criteria. *)
Lemma C4_witness :
  Job.findAll_query full
  = (Job.select_sql
       +:+ " WHERE title ILIKE $1 AND salary >= $2 AND equity > 0 AND company_handle = $3"
       +:+ " ORDER BY title",
     [JStr "%dev%"; int 200000; JStr "c1"])
  ∧ sent Store.execute (Job.findAll full) Store.empty = [Job.findAll_query full].
Proof.
  destruct (FilterFacts.C4_order_and_numbering full) as (_ & Hquery & _ & Hsent).
  split; [|apply Hsent]. rewrite Hquery. evaluated.
Defined.


(** C3, as stated, fails on the filter [{ title: "" }]: one criterion is
    present and no fragment is built. *)
Lemma C3_counterexample :
  Terms.present empty_title = 1
  ∧ length (Job.findAll_where empty_title).1 = 0
  ∧ length (Job.findAll_where empty_title).1 ≠ Terms.present empty_title.
Proof. split_and!; [evaluated..|]. vm_compute. discriminate. Qed.

(** The same on [{ hasEquity: false }]. *)
Lemma present_not_counted_equity :
  length (Job.findAll_where no_equity).1 ≠ Terms.present no_equity.
Proof. vm_compute. discriminate. Qed.





Lemma new_title_updatable : Job.updatable new_title.
Proof.
  split_and!; [done|apply NoDup_singleton|].
  intros k ->%list_elem_of_singleton. by left.
Defined.



(** The earlier copy on a row whose equity is the text ["0.1"]: it comes
    back as text, where [models/job.js] gives the number. *)
Lemma variant_keeps_text :
  let raw := <["equity" := JStr "0.1"]> stored in
  let table := {| Store.jobs := [raw]; Store.next_id := 2 |} in
  run Store.execute (JobVariant.get (int 1)) table = (inr raw, table)
  ∧ prop (Job.equity_to_float raw) "equity" = JNum (Decimal.Dec false 1 1).
Proof. split; evaluated. Qed.

(** The request of the route test: [minEmployees=100], [maxEmployees=50]. *)
Lemma C9_witness :
  Company.minEmployees crossed = Some 100%Z ∧ Company.maxEmployees crossed = Some 50%Z
  ∧ (100 > 50)%Z
  ∧ run Store.execute (Company.findAll (λ _, Job.findAll Job.no_filters) crossed) Store.empty
    = (inl (BadRequestError "minEmployees cannot be greater than maxEmployees."),
       Store.empty)
  ∧ sent Store.execute (Company.findAll (λ _, Job.findAll Job.no_filters) crossed)
      Store.empty = [].
Proof.
  destruct (CompanyFacts.C9_range_check (λ _, Job.findAll Job.no_filters) crossed
              100 50 eq_refl eq_refl eq_refl) as [_ Hany].
  destruct (Hany _ Store.execute Store.empty) as [Hrun Hsent].
  split_and!; [reflexivity|reflexivity|reflexivity|exact Hrun|exact Hsent].
Defined.

(** [{ hasEquity: false }] builds what no criteria build. *)
Lemma C10_witness :
  JBool false ≠ JBool true
  ∧ Job.findAll_query no_equity = Job.findAll_query Job.no_filters
  ∧ Job.findAll_query empty_title = Job.findAll_query Job.no_filters.
Proof.
  assert (@JBool Decimal.decimal false ≠ JBool true) as Hfalse by discriminate.
  split; [exact Hfalse|].
  destruct (FilterFacts.C10_falsy_criteria_ignored (JBool false) Hfalse)
    as (_ & Htitle & _ & Hequity & _).
  split; [exact Hequity|exact Htitle].
Defined.

End Examples.

(** ** The theorems on the values of the route tests *)

Module RouteExamples.

#[local] Existing Instance Decimal.decimal.
#[local] Existing Instance Decimal.decimal_number.

Import RouteSample.

Ltac computed := apply (bool_decide_unpack _); vm_compute; exact I.

(** A header with the prefix and white space around the token of [u1]. *)
Lemma token_of_header_witness :
  Auth.trim (Auth.strip_bearer "Bearer  u1Token  ") = "u1Token"
  ∧ Auth.authenticateJWT verify (RouteTerms.with_authorization "Bearer  u1Token  " ∅)
      Auth.no_user
    = match verify "u1Token" with
      | Some payload => ({| Auth.user := Some payload |}, None)
      | None => (Auth.no_user, None)
      end.
Proof.
  apply (AuthFacts.token_of_header verify ∅ Auth.no_user " " "u1Token" "  ").
  - reflexivity.
  - reflexivity.
  - reflexivity.
  - left. reflexivity.
Defined.

(** The admin of the tests passes the three guards. *)
Lemma guards_by_strictness_witness :
  Auth.ensureAdmin as_admin = None
  ∧ Auth.ensureCorrectUserOrAdmin "u1" as_admin = None
  ∧ Auth.ensureLoggedIn as_admin = None.
Proof.
  assert (Auth.ensureAdmin as_admin = None) as Hadmin by computed.
  destruct (AuthFacts.guards_by_strictness as_admin "u1") as [Hcorrect Hlogged].
  split; [exact Hadmin|].
  split; [exact (Hcorrect Hadmin)|exact (Hlogged (Hcorrect Hadmin))].
Defined.

(** [u1] may not delete job 1. *)
Lemma writes_need_admin_witness :
  Routes.answer Store.execute Routes.to_next (Routes.delete_job as_u1 "1") Sample.one_job
  = (Routes.Next Auth.UnauthorizedError, Sample.one_job)
  ∧ sent Store.execute (Routes.delete_job as_u1 "1") Sample.one_job = [].
Proof.
  apply (RouteFacts.writes_need_admin jobNewSchema jobUpdateSchema Store.execute
           Sample.one_job as_u1 Sample.new_job "1" Sample.new_title).
  - vm_compute. discriminate.
  - rewrite !elem_of_cons. right. right. left. reflexivity.
Defined.

(** A new job without a title, and an update of the id, stop at the schema. *)
Lemma invalid_body_not_stored_witness :
  (Routes.answer Store.execute Routes.to_next
     (Routes.post_job jobNewSchema as_admin untitled) Store.empty
   = (Routes.Next (Auth.InvalidBody (jobNewSchema untitled)), Store.empty)
   ∧ sent Store.execute (Routes.post_job jobNewSchema as_admin untitled) Store.empty = [])
  ∧ (Routes.answer Store.execute Routes.to_next
       (Routes.patch_job jobUpdateSchema as_admin "1" new_id) Sample.one_job
     = (Routes.Next (Auth.InvalidBody (jobUpdateSchema new_id)), Sample.one_job)
     ∧ sent Store.execute (Routes.patch_job jobUpdateSchema as_admin "1" new_id)
         Sample.one_job = []).
Proof.
  assert (Auth.ensureAdmin as_admin = None) as Hadmin by computed.
  split.
  - apply (RouteFacts.invalid_body_not_stored jobNewSchema jobUpdateSchema Store.execute
             Store.empty as_admin untitled "1" new_id Hadmin).
    vm_compute. discriminate.
  - apply (RouteFacts.invalid_body_not_stored jobNewSchema jobUpdateSchema Store.execute
             Sample.one_job as_admin untitled "1" new_id Hadmin).
    vm_compute. discriminate.
Defined.

(** [PATCH /1] with [{}]. *)
Lemma patch_without_data_witness :
  Routes.answer Store.execute Routes.to_next
    (Routes.patch_job jobUpdateSchema as_admin "1" []) Sample.one_job
  = (Routes.Next (Auth.Thrown (BadRequestError "No data")), Sample.one_job)
  ∧ sent Store.execute (Routes.patch_job jobUpdateSchema as_admin "1" []) Sample.one_job = [].
Proof.
  apply (RouteFacts.patch_without_data jobUpdateSchema Store.execute Sample.one_job
           as_admin "1").
  - computed.
  - computed.
Defined.

(** [DELETE /1] on a store that returns the row. *)
Lemma delete_answers_witness :
  sent (answering [deleted_row]) (Routes.delete_job as_admin "1") ()
  = [(Job.remove_sql, [JStr "1"])]
  ∧ Routes.answer (answering [deleted_row]) Routes.to_next (Routes.delete_job as_admin "1") ()
    = (Routes.Json 200 (Routes.DeletedBody "1"), ()).
Proof.
  apply (RouteFacts.delete_answers (answering [deleted_row]) () () as_admin "1"
           {| rows := [deleted_row] |}).
  - computed.
  - reflexivity.
Defined.

(** Two updates of the title send the same text. *)
Lemma update_text_from_keys_witness :
  (sent Store.execute (Job.update (Sample.int 1) Sample.new_title) Sample.one_job).*1
  = (sent Store.execute (Job.update (Sample.int 2) [("title", JNull)]) Store.empty).*1.
Proof.
  apply (ModelFacts.update_text_from_keys Sample.new_title [("title", JNull)] ∅).
  reflexivity.
Defined.

(** Two filters with all four criteria. *)
Lemma findAll_text_from_guards_witness :
  (Job.findAll_query Sample.full).1 = (Job.findAll_query full_too).1
  ∧ length (Job.findAll_query Sample.full).2 = length (Job.findAll_query full_too).2.
Proof.
  apply (ModelFacts.findAll_text_from_guards Sample.full full_too).
  - reflexivity.
  - split; intros E; vm_compute in E; discriminate E.
  - split; reflexivity.
  - reflexivity.
Defined.

(** Job 1 after its removal. *)
Lemma removed_job_is_gone_witness :
  run Store.execute (Job.get (Sample.int 1)) after_removal
  = (inl (NotFoundError ("No job: " +:+ to_string (Sample.int 1))), after_removal).
Proof.
  assert (run Store.execute (Job.remove (Sample.int 1)) Sample.one_job
          = (inr (), after_removal)) as Hremoved by computed.
  destruct (LifeFacts.removed_job_is_gone Sample.one_job after_removal (Sample.int 1)
              Sample.new_title Hremoved) as [Hget _].
  exact Hget.
Defined.

(** The job of the tests, created in an empty table and read back. *)
Lemma created_job_can_be_read_witness :
  run Store.execute (Job.get (prop Sample.stored "id")) Sample.one_job
  = (inr Sample.stored, Sample.one_job).
Proof.
  apply (LifeFacts.created_job_can_be_read Store.empty Sample.one_job Sample.new_job
           Sample.stored).
  - computed.
  - intros r Hr. vm_compute in Hr. inversion Hr.
Defined.

(** The new title of job 1, read back. *)
Lemma updated_job_can_be_read_witness :
  run Store.execute (Job.get (Sample.int 1)) after_update = (inr renamed, after_update)
  ∧ prop renamed "title" = JStr "Updated Job".
Proof.
  destruct (LifeFacts.updated_job_can_be_read Sample.one_job after_update (Sample.int 1)
              Sample.new_title renamed) as (Hget & Hnew & _).
  - exact Examples.new_title_updatable.
  - computed.
  - split; [exact Hget|]. apply (Hnew "title" (JStr "Updated Job")).
    + left.
    + vm_compute. discriminate.
Defined.


End RouteExamples.
